(** * The envelope poller of the Supermodel TypeScript SDK (src/async.ts)

    A shallow embedding of [pollUntilComplete], [sleepWithAbort] and
    [defaultGenerateIdempotencyKey], followed by the properties of the
    polling state machine, and of the facade [SupermodelClient] over an
    abstract [DefaultApi].

    Modelling conventions.
    - A JavaScript [number] that measures time (milliseconds, seconds) is an
      exact rational [Q]; the attempt counter and [maxPollingAttempts] are
      integers [Z].  Rounding of IEEE doubles, NaN and the infinities are
      outside the model; module [Double] reads the one arithmetic
      expression of the poller again on binary64 numbers.
    - An optional field ([retryAfter?: number]) is an [option]; [None] is
      JavaScript's [undefined].
    - The poller is asynchronous code over an environment: the clock read by
      [Date.now()], the zero-argument [apiCall] and the [AbortSignal].  The
      environment is made explicit.  [apiCall] is a script [nat -> Reply]
      giving, for the k-th invocation, how long it takes and what it settles
      with; an [AbortSignal] carries the instant at which it is aborted (if
      ever).  The clock advances only while the poller awaits (a call in
      flight, a timer running).
    - Promises are computations in a state-and-exception monad [Async] over
      the [Session]: the world the poller observes together with its two
      mutable locals [attempt] and [jobId].  *)

From Stdlib Require Import PrimFloat.
From Stdlib Require Import ZArith QArith Qround Lqa Lia Bool List String Ascii.
Import ListNotations.

Local Open Scope Z_scope.

(** ** JavaScript's [||] on the two primitive types the poller uses *)

(** [s || d] on a string: [''] is falsy. *)
Definition or_str (s d : string) : string :=
  if String.eqb s "" then d else s.

(** [s || d] on an optional string: [undefined] and [''] are falsy. *)
Definition or_string (s : option string) (d : string) : string :=
  match s with
  | Some x => or_str x d
  | None => d
  end.

(** [x || d] on an optional number: [undefined] and [0] are falsy. *)
Definition or_number (x : option Q) (d : Q) : Q :=
  match x with
  | Some q => if Qeq_bool q 0 then d else q
  | None => d
  end.

(** ** Errors *)

(** The values [pollUntilComplete] can reject with.  [JsError name message]
    is a plain [Error] object whose [name] is as given ([new Error(message)]
    has the name ['Error']); [TransportError] stands for whatever [apiCall]
    itself rejected with, which the poller never catches. *)
Inductive PollError : Type :=
| JsError (name message : string)
| JobFailedError (jobId errorMessage : string)
| PollingTimeoutError (jobId : string) (timeoutMs : Q) (attempts : Z)
| TransportError (name message : string).

(** [const error = new Error('Polling aborted'); error.name = 'AbortError'] *)
Definition AbortError : PollError := JsError "AbortError" "Polling aborted".

(** The [name] property of the error object. *)
Definition error_name (e : PollError) : string :=
  match e with
  | JsError n _ => n
  | JobFailedError _ _ => "JobFailedError"
  | PollingTimeoutError _ _ _ => "PollingTimeoutError"
  | TransportError n _ => n
  end.

(** ** The cancellation handle *)

(** An [AbortSignal], seen from the poller: the instant at which it is (or
    was) aborted, [None] if that never happens. *)
Record AbortSignal : Type := { abortedAt : option Q }.

(** [signal?.aborted], read when the clock shows [t]. *)
Definition aborted (signal : option AbortSignal) (t : Q) : bool :=
  match signal with
  | Some sg =>
      match abortedAt sg with
      | Some a => Qle_bool a t
      | None => false
      end
  | None => false
  end.

(** The instant of the ['abort'] event the listener would be called at. *)
Definition abort_event (signal : option AbortSignal) : option Q :=
  match signal with
  | Some sg => abortedAt sg
  | None => None
  end.

(** ** Configuration *)

(** [AsyncClientOptions].  [onPollingProgress] records whether a callback is
    configured: the callback is an observer, its effect is the report it is
    handed (kept in the session's [reports]).  [generateIdempotencyKey] is
    read by the facade only and is not part of the poller's options here. *)
Record AsyncClientOptions : Type := {
  timeoutMs : option Q;
  defaultRetryIntervalMs : option Q;
  maxPollingAttempts : option Z;
  onPollingProgress : bool;
  signal : option AbortSignal
}.

(** [PollingProgress] *)
Record PollingProgress : Type := {
  p_jobId : string;
  p_status : string;
  p_attempt : Z;
  p_maxAttempts : Z;
  p_elapsedMs : Q;
  p_nextRetryMs : option Q
}.

(** A destructuring default, [{ x = d } = options]. *)
Definition with_default {A : Type} (x : option A) (d : A) : A :=
  match x with
  | Some v => v
  | None => d
  end.

(** How long the platform timer started by [setTimeout(f, ms)] runs: [ms],
    and no time at all for a delay that is not positive. *)
Definition timer_delay (ms : Q) : Q :=
  if Qle_bool ms 0 then 0%Q else ms.

(** How a computation ends: it resolves, it rejects (or throws), or, for the
    fuelled loop only, the fuel ran out first. *)
Inductive Completion (A : Type) : Type :=
| Resolved (a : A)
| Rejected (e : PollError)
| Unfinished.

Arguments Resolved {A} a.
Arguments Rejected {A} e.
Arguments Unfinished {A}.

Section Poller.

(** The payload type [T] of a completed job. *)
Variable T : Type.

(** [AsyncEnvelope<T>] *)
Record AsyncEnvelope : Type := {
  status : string;
  jobId : string;
  retryAfter : option Q;
  error : option string;
  result : option T
}.

(** What one invocation of [apiCall] does: it settles after [latency]
    milliseconds, with an envelope or with a rejection (name, message). *)
Record Reply : Type := {
  latency : Q;
  settles : AsyncEnvelope + (string * string)
}.

(** The state one run of the poller reads and writes. *)
Record Session : Type := {
  now : Q;                          (* the clock, [Date.now()] *)
  calls : nat;                      (* invocations of [apiCall] so far *)
  received : list AsyncEnvelope;    (* the envelopes they returned, oldest first *)
  waits : list Q;                   (* the delays of the timers started, oldest first *)
  reports : list PollingProgress;   (* what the progress callback was handed *)
  attempt : Z;                      (* [let attempt] *)
  sessionJobId : string             (* [let jobId] *)
}.

Definition set_now (t : Q) (s : Session) : Session :=
  {| now := t; calls := calls s; received := received s; waits := waits s;
     reports := reports s; attempt := attempt s; sessionJobId := sessionJobId s |}.

Definition set_attempt (a : Z) (s : Session) : Session :=
  {| now := now s; calls := calls s; received := received s; waits := waits s;
     reports := reports s; attempt := a; sessionJobId := sessionJobId s |}.

Definition set_jobId (j : string) (s : Session) : Session :=
  {| now := now s; calls := calls s; received := received s; waits := waits s;
     reports := reports s; attempt := attempt s; sessionJobId := j |}.

Definition count_call (s : Session) : Session :=
  {| now := now s; calls := S (calls s); received := received s; waits := waits s;
     reports := reports s; attempt := attempt s; sessionJobId := sessionJobId s |}.

Definition log_envelope (e : AsyncEnvelope) (s : Session) : Session :=
  {| now := now s; calls := calls s; received := received s ++ [e]; waits := waits s;
     reports := reports s; attempt := attempt s; sessionJobId := sessionJobId s |}.

Definition log_wait (ms : Q) (s : Session) : Session :=
  {| now := now s; calls := calls s; received := received s; waits := waits s ++ [ms];
     reports := reports s; attempt := attempt s; sessionJobId := sessionJobId s |}.

Definition log_report (p : PollingProgress) (s : Session) : Session :=
  {| now := now s; calls := calls s; received := received s; waits := waits s;
     reports := reports s ++ [p]; attempt := attempt s; sessionJobId := sessionJobId s |}.

(** *** The monad of asynchronous computations *)

Definition Async (A : Type) : Type := Session -> Completion A * Session.

Definition ret {A : Type} (a : A) : Async A := fun s => (Resolved a, s).

Definition throw {A : Type} (e : PollError) : Async A := fun s => (Rejected e, s).

Definition bind {A B : Type} (c : Async A) (k : A -> Async B) : Async B :=
  fun s =>
    match c s with
    | (Resolved a, s') => k a s'
    | (Rejected e, s') => (Rejected e, s')
    | (Unfinished, s') => (Unfinished, s')
    end.

Definition read {A : Type} (f : Session -> A) : Async A := fun s => (Resolved (f s), s).

Definition modify (f : Session -> Session) : Async unit := fun s => (Resolved tt, f s).

Notation "x <- c ;; k" := (bind c (fun x => k))
  (at level 61, c at next level, right associativity).
Notation "c ;; k" := (bind c (fun _ => k))
  (at level 61, right associativity).

(** *** The environment's operations *)

(** [Date.now()] *)
Definition Date_now : Async Q := read now.

(** [signal?.aborted] *)
Definition signal_aborted (signal : option AbortSignal) : Async bool :=
  read (fun s => aborted signal (now s)).

(** [await apiCall()]: the next reply of the script; the clock moves by its
    latency; an envelope is handed over, a rejection propagates. *)
Definition invoke (apiCall : nat -> Reply) : Async AsyncEnvelope :=
  fun s =>
    let r := apiCall (calls s) in
    let s' := count_call (set_now (now s + latency r)%Q s) in
    match settles r with
    | inl e => (Resolved e, log_envelope e s')
    | inr (n, m) => (Rejected (TransportError n m), s')
    end.

(** [sleepWithAbort(ms, signal)].  An already aborted signal rejects at once
    and no timer is started.  Otherwise the timer runs; an ['abort'] event
    that arrives before it fires clears it and rejects at that instant. *)
Definition sleepWithAbort (ms : Q) (signal : option AbortSignal) : Async unit :=
  fun s =>
    if aborted signal (now s) then (Rejected AbortError, s)
    else
      let fires := (now s + timer_delay ms)%Q in
      let s' := log_wait ms s in
      match abort_event signal with
      | Some a =>
          if Qle_bool fires a then (Resolved tt, set_now fires s')
          else (Rejected AbortError, set_now a s')
      | None => (Resolved tt, set_now fires s')
      end.

(** [sleep(ms)], the plain delay (not used by the poller). *)
Definition sleep (ms : Q) : Async unit :=
  fun s => (Resolved tt, set_now (now s + timer_delay ms)%Q (log_wait ms s)).

(** *** pollUntilComplete *)

(** [status === 'completed' || status === 'failed'] *)
Definition is_terminal (st : string) : bool :=
  String.eqb st "completed" || String.eqb st "failed".

(** [(response.retryAfter || defaultRetryIntervalMs / 1000) * 1000] *)
Definition retryAfterMs (response : AsyncEnvelope) (defaultRetryIntervalMs : Q) : Q :=
  (or_number (retryAfter response) (defaultRetryIntervalMs / 1000) * 1000)%Q.

(** What one pass through the body of the [while] decides. *)
Inductive Step : Type :=
| Return (r : T)
| Continue.

Section Loop.

Variable apiCall : nat -> Reply.
Variables (timeout defaultRetryInterval : Q) (maxAttempts : Z).
Variable progress : bool.
Variable abortSignal : option AbortSignal.
Variable startTime : Q.

(** One attempt (lines 222-262): the counter is incremented, the elapsed
    time is checked, the call is made and its envelope dispatched on. *)
Definition poll_attempt : Async Step :=
  a0 <- read attempt ;;
  modify (set_attempt (a0 + 1)) ;;
  t1 <- Date_now ;;
  let elapsedMs := (t1 - startTime)%Q in
  a <- read attempt ;;
  j <- read sessionJobId ;;
  if Qle_bool timeout elapsedMs
  then throw (PollingTimeoutError (or_str j "unknown") timeout a)
  else
    response <- invoke apiCall ;;
    modify (set_jobId (jobId response)) ;;
    j <- read sessionJobId ;;
    let st := status response in
    (if progress
     then
       let nextRetryMs :=
         if is_terminal st then None
         else Some (retryAfterMs response defaultRetryInterval) in
       modify (log_report
                 {| p_jobId := j; p_status := st; p_attempt := a;
                    p_maxAttempts := maxAttempts; p_elapsedMs := elapsedMs;
                    p_nextRetryMs := nextRetryMs |})
     else ret tt) ;;
    if String.eqb st "completed"
    then
      match result response with
      | Some r => ret (Return r)
      | None =>
          throw (JsError "Error"
                   ("Job " ++ j ++ " completed but result is undefined"))
      end
    else if String.eqb st "failed"
    then throw (JobFailedError j (or_string (error response) "Unknown error"))
    else
      sleepWithAbort (retryAfterMs response defaultRetryInterval) abortSignal ;;
      ret Continue.

(** The body of the [while] loop (lines 215-262): the check for abort
    "before each attempt", then the attempt. *)
Definition poll_body : Async Step :=
  stop <- signal_aborted abortSignal ;;
  if stop then throw AbortError else poll_attempt.

(** [while (attempt < maxPollingAttempts) { ... } throw new PollingTimeoutError(...)].
    Every pass increments [attempt], so [maxPollingAttempts - attempt] passes
    suffice; [fuel] bounds the number of passes. *)
Fixpoint poll_loop (fuel : nat) : Async T :=
  a <- read attempt ;;
  if a <? maxAttempts
  then
    match fuel with
    | O => fun s => (Unfinished, s)
    | S fuel' =>
        r <- poll_body ;;
        match r with
        | Return x => ret x
        | Continue => poll_loop fuel'
        end
    end
  else
    j <- read sessionJobId ;;
    throw (PollingTimeoutError (or_str j "unknown") timeout a).

End Loop.

(** [pollUntilComplete(apiCall, options)] *)
Definition pollUntilComplete (apiCall : nat -> Reply) (options : AsyncClientOptions)
  : Async T :=
  let timeout := with_default (timeoutMs options) 900000%Q in
  let defaultRetryInterval := with_default (defaultRetryIntervalMs options) 10000%Q in
  let maxAttempts := with_default (maxPollingAttempts options) 90 in
  startTime <- Date_now ;;
  modify (set_attempt 0) ;;
  modify (set_jobId "") ;;
  poll_loop apiCall timeout defaultRetryInterval maxAttempts
    (onPollingProgress options) (signal options) startTime
    (Z.to_nat maxAttempts).

End Poller.

Arguments status {T} _.
Arguments jobId {T} _.
Arguments retryAfter {T} _.
Arguments error {T} _.
Arguments result {T} _.
Arguments latency {T} _.
Arguments settles {T} _.
Arguments now {T} _.
Arguments calls {T} _.
Arguments received {T} _.
Arguments waits {T} _.
Arguments reports {T} _.
Arguments attempt {T} _.
Arguments sessionJobId {T} _.
Arguments set_now {T} t s.
Arguments set_attempt {T} a s.
Arguments set_jobId {T} j s.
Arguments count_call {T} s.
Arguments log_envelope {T} e s.
Arguments log_wait {T} ms s.
Arguments log_report {T} p s.
Arguments ret {T A} a _.
Arguments throw {T A} e _.
Arguments bind {T A B} c k _.
Arguments read {T A} f _.
Arguments modify {T} f _.
Arguments Date_now {T} _.
Arguments signal_aborted {T} signal _.
Arguments invoke {T} apiCall _.
Arguments sleepWithAbort {T} ms signal _.
Arguments sleep {T} ms _.
Arguments retryAfterMs {T} response defaultRetryIntervalMs.
Arguments Return {T} r.
Arguments Continue {T}.
Arguments poll_attempt {T} apiCall timeout defaultRetryInterval maxAttempts
  progress abortSignal startTime _.
Arguments poll_body {T} apiCall timeout defaultRetryInterval maxAttempts
  progress abortSignal startTime _.
Arguments poll_loop {T} apiCall timeout defaultRetryInterval maxAttempts
  progress abortSignal startTime fuel _.
Arguments pollUntilComplete {T} apiCall options _.
Arguments poll_body : simpl never.
Arguments poll_attempt : simpl never.

(** ** Runs *)

(** A session that has not started: the clock shows [t0], nothing has been
    called, received, waited for or reported. *)
Definition fresh_session {T : Type} (t0 : Q) : Session T :=
  {| now := t0; calls := 0; received := []; waits := []; reports := [];
     attempt := 0; sessionJobId := "" |}.

(** One run of the poller, started when the clock shows [t0]: how it settles
    and the session it leaves. *)
Definition run {T : Type} (apiCall : nat -> Reply T) (options : AsyncClientOptions)
    (t0 : Q) : Completion T * Session T :=
  pollUntilComplete apiCall options (fresh_session t0).

(** The session right after the call of one pass has returned envelope [e]
    (lines 222-246): the counter is incremented, the clock has moved by the
    latency of the call, the job id is the envelope's and, with a progress
    callback, the report has been handed over. *)
Definition after_call {T : Type} (apiCall : nat -> Reply T)
    (defaultRetryInterval : Q) (maxAttempts : Z) (progress : bool) (startTime : Q)
    (e : AsyncEnvelope T) (s : Session T) : Session T :=
  let s1 :=
    set_jobId (jobId e)
      (log_envelope e
         (count_call
            (set_now (now s + latency (apiCall (calls s)))%Q
               (set_attempt (attempt s + 1) s)))) in
  if progress
  then
    log_report
      {| p_jobId := jobId e; p_status := status e; p_attempt := attempt s + 1;
         p_maxAttempts := maxAttempts; p_elapsedMs := (now s - startTime)%Q;
         p_nextRetryMs :=
           if is_terminal (status e) then None
           else Some (retryAfterMs e defaultRetryInterval) |} s1
  else s1.

(** How the poller settles on a terminal envelope (lines 248-257). *)
Definition verdict {T : Type} (e : AsyncEnvelope T) : Completion T :=
  if String.eqb (status e) "completed"
  then
    match result e with
    | Some r => Resolved r
    | None =>
        Rejected (JsError "Error"
                    ("Job " ++ jobId e ++ " completed but result is undefined"))
    end
  else Rejected (JobFailedError (jobId e) (or_string (error e) "Unknown error")).

(** An envelope that leaves the job running. *)
Definition nonterminal {T : Type} (e : AsyncEnvelope T) : Prop :=
  is_terminal (status e) = false.

(** ** The idempotency key generator *)

Module IdempotencyKey.

(** Truncation toward zero, the first step of [ToInt32]. *)
Definition Qtruncate (x : Q) : Z :=
  if Qle_bool 0 x then Qfloor x else Qceiling x.

(** The signed 32-bit integer congruent to [n]. *)
Definition wrap32 (n : Z) : Z :=
  let m := n mod 2 ^ 32 in
  if m <? 2 ^ 31 then m else m - 2 ^ 32.

(** [ToInt32] of a number. *)
Definition to_int32 (x : Q) : Z := wrap32 (Qtruncate x).

(** [a | b] and [a & b] on integers. *)
Definition js_or (a b : Z) : Z := wrap32 (Z.lor (wrap32 a) (wrap32 b)).
Definition js_and (a b : Z) : Z := wrap32 (Z.land (wrap32 a) (wrap32 b)).

Definition hex_digit (d : Z) : ascii :=
  nth (Z.to_nat d) (list_ascii_of_string "0123456789abcdef") "0"%char.

(** The hexadecimal digits of a natural number, most significant first. *)
Fixpoint hex_digits (fuel : nat) (n : Z) (acc : string) : string :=
  match fuel with
  | O => acc
  | S fuel' =>
      let acc' := String (hex_digit (n mod 16)) acc in
      if n / 16 =? 0 then acc' else hex_digits fuel' (n / 16) acc'
  end.

(** [v.toString(16)] for an integer [v]; a number below [2^(k+1)] has at
    most [k+1] digits, which bounds the recursion. *)
Definition toString16 (v : Z) : string :=
  if v <? 0
  then "-" ++ hex_digits (S (Z.to_nat (Z.log2 (- v)))) (- v) ""
  else hex_digits (S (Z.to_nat (Z.log2 v))) v "".

(** The callback of [replace]: [c] is the matched character and [rnd] the
    value [Math.random()] returns in this invocation. *)
Definition key_char (c : ascii) (rnd : Q) : string :=
  let r := js_or (to_int32 (rnd * 16)) 0 in
  let v := if Ascii.eqb c "x" then r else js_or (js_and r 3) 8 in
  toString16 v.

(** [s.replace(/[xy]/g, callback)]: the callback is invoked once per match,
    left to right; [random k] is the k-th value drawn from [Math.random]. *)
Fixpoint replace_xy (random : nat -> Q) (k : nat) (s : string) : string :=
  match s with
  | EmptyString => EmptyString
  | String c rest =>
      if (Ascii.eqb c "x" || Ascii.eqb c "y")%bool
      then key_char c (random k) ++ replace_xy random (S k) rest
      else String c (replace_xy random k rest)
  end.

Definition key_template : string := "xxxxxxxx-xxxx-4xxx-yxxx-xxxxxxxxxxxx".

(** [defaultGenerateIdempotencyKey()].  [randomUUID] is [Some u] when
    [crypto.randomUUID] exists, [u] being what it returns. *)
Definition defaultGenerateIdempotencyKey (randomUUID : option string)
    (random : nat -> Q) : string :=
  match randomUUID with
  | Some u => u
  | None => replace_xy random 0 key_template
  end.

(** The range of [Math.random()]. *)
Definition unit_interval (random : nat -> Q) : Prop :=
  forall k, (0 <= random k /\ random k < 1)%Q.

End IdempotencyKey.

(** ** One pass of the loop, as a relation *)

(** A terminal verdict, seen as the outcome of the pass that reached it. *)
Definition returning {T : Type} (c : Completion T) : Completion (Step T) :=
  match c with
  | Resolved r => Resolved (Return r)
  | Rejected x => Rejected x
  | Unfinished => Unfinished
  end.

(** A wait, seen as the outcome of the pass that ends with it. *)
Definition continuing {T : Type} (c : Completion unit) : Completion (Step T) :=
  match c with
  | Resolved _ => Resolved Continue
  | Rejected x => Rejected x
  | Unfinished => Unfinished
  end.

Section Iteration.

Context {T : Type}.
Variable apiCall : nat -> Reply T.
Variables (timeout defaultRetryInterval : Q) (maxAttempts : Z).
Variable progress : bool.
Variable abortSignal : option AbortSignal.
Variable startTime : Q.

(** The five ways through the body of the [while], in the order of the
    source: cancelled before the attempt, out of time before the call, the
    call rejects, the envelope is terminal, the envelope leaves the job
    running and the pass ends with the abortable delay. *)
Inductive iteration (s : Session T) : Completion (Step T) -> Session T -> Prop :=
| it_cancelled :
    aborted abortSignal (now s) = true ->
    iteration s (Rejected AbortError) s
| it_timed_out :
    aborted abortSignal (now s) = false ->
    Qle_bool timeout (now s - startTime) = true ->
    iteration s
      (Rejected (PollingTimeoutError (or_str (sessionJobId s) "unknown")
                   timeout (attempt s + 1)))
      (set_attempt (attempt s + 1) s)
| it_call_failed (n m : string) :
    aborted abortSignal (now s) = false ->
    Qle_bool timeout (now s - startTime) = false ->
    settles (apiCall (calls s)) = inr (n, m) ->
    iteration s (Rejected (TransportError n m))
      (count_call
         (set_now (now s + latency (apiCall (calls s)))%Q
            (set_attempt (attempt s + 1) s)))
| it_settled (e : AsyncEnvelope T) :
    aborted abortSignal (now s) = false ->
    Qle_bool timeout (now s - startTime) = false ->
    settles (apiCall (calls s)) = inl e ->
    is_terminal (status e) = true ->
    iteration s (returning (verdict e))
      (after_call apiCall defaultRetryInterval maxAttempts progress startTime e s)
| it_waited (e : AsyncEnvelope T) (c : Completion unit) (s' : Session T) :
    aborted abortSignal (now s) = false ->
    Qle_bool timeout (now s - startTime) = false ->
    settles (apiCall (calls s)) = inl e ->
    is_terminal (status e) = false ->
    sleepWithAbort (retryAfterMs e defaultRetryInterval) abortSignal
      (after_call apiCall defaultRetryInterval maxAttempts progress startTime e s)
    = (c, s') ->
    iteration s (continuing c) s'.

End Iteration.

(** ** The retry interval on IEEE doubles *)

Module Double.

(** [x || d] on an optional double: [undefined], [0], [-0] and [NaN] are
    falsy. *)
Definition or_number (x : option float) (d : float) : float :=
  match x with
  | Some q =>
      if (PrimFloat.eqb q 0%float || negb (PrimFloat.eqb q q))%bool then d else q
  | None => d
  end.

(** [(response.retryAfter || defaultRetryIntervalMs / 1000) * 1000] *)
Definition retryAfterMs (retryAfter : option float)
    (defaultRetryIntervalMs : float) : float :=
  PrimFloat.mul
    (or_number retryAfter (PrimFloat.div defaultRetryIntervalMs 1000%float))
    1000%float.

End Double.

(** ** Concrete envelopes, scripts and options

    The inputs the examples below are evaluated at.  The payload of a
    completed job is a string here. *)

Module Scenario.

Definition envelope (st : string) (ra : option Q) (err : option string)
    (res : option string) : AsyncEnvelope string :=
  {| status := st; jobId := "job-1"; retryAfter := ra; error := err;
     result := res |}.

Definition pending1 := envelope "pending" (Some 1%Q) None None.
Definition processing := envelope "processing" None None None.
Definition processing5 := envelope "processing" (Some 5%Q) None None.
Definition processingNeg := envelope "processing" (Some (-5)%Q) None None.
Definition completedX := envelope "completed" None None (Some "X"%string).
Definition completedNothing := envelope "completed" None None None.
Definition failedBad := envelope "failed" None (Some "bad archive"%string) None.
Definition failedEmpty := envelope "failed" None (Some ""%string) None.

(** A call that takes [ms] milliseconds and returns [e]. *)
Definition returns (ms : Q) (e : AsyncEnvelope string) : Reply string :=
  {| latency := ms; settles := inl e |}.

(** The script that replies with the elements of [l] in turn and with [r]
    ever after. *)
Definition script (l : list (Reply string)) (r : Reply string) : nat -> Reply string :=
  fun k => nth k l r.

(** The script that always returns [e], at once. *)
Definition always (e : AsyncEnvelope string) : nat -> Reply string :=
  script [] (returns 0 e).

Definition options (timeout : option Q) (maxAttempts : option Z)
    (sg : option AbortSignal) : AsyncClientOptions :=
  {| timeoutMs := timeout; defaultRetryIntervalMs := None;
     maxPollingAttempts := maxAttempts; onPollingProgress := false;
     signal := sg |}.

(** No option set: every default applies. *)
Definition defaults : AsyncClientOptions := options None None None.

(** A signal aborted when the clock shows [t]. *)
Definition abortsAt (t : Q) : option AbortSignal :=
  Some {| abortedAt := Some t |}.

(** Scenario A: [pending] with [retryAfter = 1] after 20 ms, then
    [completed] with result ["X"] after 30 ms more. *)
Definition scenarioA : nat -> Reply string :=
  script [returns 20 pending1; returns 30 completedX] (returns 0 processing).

Definition optionsA : AsyncClientOptions :=
  options (Some 60000%Q) (Some 5) None.

(** A session in the middle of a run: one call made 1500 ms ago returned
    [processing]. *)
Definition midway : Session string :=
  {| now := 1500; calls := 1; received := [processing]; waits := [1000%Q];
     reports := []; attempt := 1; sessionJobId := "job-1" |}.

End Scenario.

(** ** Runs that nothing cuts short

    An undisturbed run polls at instants that the script alone determines.
    The functions below compute them; they are used to state what such runs
    do. *)

(** The k-th call returns an envelope that leaves the job running. *)
Definition keeps_running {T : Type} (apiCall : nat -> Reply T) (k : nat) : Prop :=
  exists e : AsyncEnvelope T,
    settles (apiCall k) = inl e /\ is_terminal (status e) = false.

(** How long the timer after the k-th call runs. *)
Definition pause_after {T : Type} (apiCall : nat -> Reply T)
    (defaultRetryInterval : Q) (k : nat) : Q :=
  match settles (apiCall k) with
  | inl e => timer_delay (retryAfterMs e defaultRetryInterval)
  | inr _ => 0%Q
  end.

(** The clock when attempt [k + 1] starts, in a run started at [t0] whose
    first [k] calls each returned an envelope and were each followed by a
    full wait. *)
Fixpoint attempt_time {T : Type} (apiCall : nat -> Reply T)
    (defaultRetryInterval : Q) (t0 : Q) (k : nat) : Q :=
  match k with
  | O => t0
  | S k' =>
      (attempt_time apiCall defaultRetryInterval t0 k' + latency (apiCall k')
       + pause_after apiCall defaultRetryInterval k')%Q
  end.

(** The value of [jobId] after [k] calls that returned envelopes. *)
Definition known_job_id {T : Type} (apiCall : nat -> Reply T) (k : nat) : string :=
  match k with
  | O => ""
  | S k' =>
      match settles (apiCall k') with
      | inl e => jobId e
      | inr _ => ""
      end
  end.

(** What the progress callback is told the next retry delay is. *)
Definition next_retry {T : Type} (defaultRetryInterval : Q) (e : AsyncEnvelope T)
  : option Q :=
  if is_terminal (status e) then None
  else Some (retryAfterMs e defaultRetryInterval).

(** The reports [ps] are those of the envelopes [es], one each and in
    order: job id and status of the envelope, the number of the attempt,
    the configured maximum and the announced retry delay. *)
Definition reports_follow {T : Type} (defaultRetryInterval : Q) (maxAttempts : Z)
    (ps : list PollingProgress) (es : list (AsyncEnvelope T)) : Prop :=
  map p_jobId ps = map jobId es
  /\ map p_status ps = map status es
  /\ map p_attempt ps = map Z.of_nat (seq 1 (List.length es))
  /\ map p_maxAttempts ps = map (fun _ => maxAttempts) es
  /\ map p_nextRetryMs ps = map (next_retry defaultRetryInterval) es.

(** ** The placeholders of the key template *)

(** The characters of [s] that [replace(/[xy]/g, ...)] calls back for, in
    order: one draw of [Math.random] each. *)
Fixpoint placeholders (s : string) : list ascii :=
  match s with
  | EmptyString => []
  | String c rest =>
      if (Ascii.eqb c "x" || Ascii.eqb c "y")%bool
      then c :: placeholders rest
      else placeholders rest
  end.

(** The characters of a version-4 UUID in lower case. *)
Definition uuid_alphabet : list ascii :=
  list_ascii_of_string "0123456789abcdef-".

(** ** The facade *)

Section Facade.

(** The result types [CodeGraphEnvelope], [DomainClassificationResponse] and
    [SupermodelIR], the archive type [Blob] and the type of the fetch
    overrides are opaque to the facade. *)
Variables G D I : Type.
Variables Blob InitOverrides : Type.

(** The request parameters [{ idempotencyKey, file }] of the generated API
    methods. *)
Record GraphRequest : Type := {
  req_idempotencyKey : string;
  req_file : Blob
}.

(** [GraphRequestOptions] *)
Record GraphRequestOptions : Type := {
  o_idempotencyKey : option string;
  o_initOverrides : option InitOverrides;
  o_signal : option AbortSignal
}.

(** What the facade uses of [DefaultApi]: each method, given the request
    parameters and the overrides, is a script of replies as [apiCall] is. *)
Record DefaultApi : Type := {
  api_generateDependencyGraph :
    GraphRequest -> option InitOverrides -> nat -> Reply G;
  api_generateCallGraph :
    GraphRequest -> option InitOverrides -> nat -> Reply G;
  api_generateDomainGraph :
    GraphRequest -> option InitOverrides -> nat -> Reply D;
  api_generateParseGraph :
    GraphRequest -> option InitOverrides -> nat -> Reply G;
  api_generateSupermodelGraph :
    GraphRequest -> option InitOverrides -> nat -> Reply I
}.

(** [SupermodelClient].  The key generator is a function [() => string]
    with a state of its own: [client_generateIdempotencyKey k] is what its
    k-th invocation returns. *)
Record SupermodelClient : Type := {
  client_api : DefaultApi;
  client_options : AsyncClientOptions;
  client_generateIdempotencyKey : nat -> string
}.

(** [new SupermodelClient(api, options)]; [generateIdempotencyKey] is the
    field of that name in [options], [defaultGenerator] the function
    [defaultGenerateIdempotencyKey] as a generator. *)
Definition new_SupermodelClient (api : DefaultApi) (options : AsyncClientOptions)
    (generateIdempotencyKey : option (nat -> string))
    (defaultGenerator : nat -> string) : SupermodelClient :=
  {| client_api := api;
     client_options := options;
     client_generateIdempotencyKey :=
       with_default generateIdempotencyKey defaultGenerator |}.

(** [options?.idempotencyKey], [options?.initOverrides], [options?.signal] *)
Definition opt_idempotencyKey (options : option GraphRequestOptions)
  : option string :=
  match options with
  | Some o => o_idempotencyKey o
  | None => None
  end.

Definition opt_initOverrides (options : option GraphRequestOptions)
  : option InitOverrides :=
  match options with
  | Some o => o_initOverrides o
  | None => None
  end.

Definition opt_signal (options : option GraphRequestOptions)
  : option AbortSignal :=
  match options with
  | Some o => o_signal o
  | None => None
  end.

(** [options?.idempotencyKey || this.generateIdempotencyKey()], with [g]
    keys generated before: the key and the number of keys generated after.
    The generator is invoked only when the key given is falsy. *)
Definition request_key (client : SupermodelClient)
    (options : option GraphRequestOptions) (g : nat) : string * nat :=
  match opt_idempotencyKey options with
  | Some k =>
      if String.eqb k "" then (client_generateIdempotencyKey client g, S g)
      else (k, g)
  | None => (client_generateIdempotencyKey client g, S g)
  end.

(** [options?.signal ? { ...this.options, signal: options.signal } : this.options] *)
Definition poll_options (client : SupermodelClient)
    (options : option GraphRequestOptions) : AsyncClientOptions :=
  match opt_signal options with
  | Some sg =>
      {| timeoutMs := timeoutMs (client_options client);
         defaultRetryIntervalMs := defaultRetryIntervalMs (client_options client);
         maxPollingAttempts := maxPollingAttempts (client_options client);
         onPollingProgress := onPollingProgress (client_options client);
         signal := Some sg |}
  | None => client_options client
  end.

(** The facade's methods run in a session and with [g] keys generated
    before; they leave a session and a number of keys generated. *)
Definition generateDependencyGraph (client : SupermodelClient) (file : Blob)
    (options : option GraphRequestOptions) (g : nat) (s : Session G)
  : (Completion G * Session G) * nat :=
  let (key, g') := request_key client options g in
  let pollOptions := poll_options client options in
  (pollUntilComplete
     (api_generateDependencyGraph (client_api client)
        {| req_idempotencyKey := key; req_file := file |}
        (opt_initOverrides options))
     pollOptions s,
   g').

Definition generateCallGraph (client : SupermodelClient) (file : Blob)
    (options : option GraphRequestOptions) (g : nat) (s : Session G)
  : (Completion G * Session G) * nat :=
  let (key, g') := request_key client options g in
  let pollOptions := poll_options client options in
  (pollUntilComplete
     (api_generateCallGraph (client_api client)
        {| req_idempotencyKey := key; req_file := file |}
        (opt_initOverrides options))
     pollOptions s,
   g').

Definition generateDomainGraph (client : SupermodelClient) (file : Blob)
    (options : option GraphRequestOptions) (g : nat) (s : Session D)
  : (Completion D * Session D) * nat :=
  let (key, g') := request_key client options g in
  let pollOptions := poll_options client options in
  (pollUntilComplete
     (api_generateDomainGraph (client_api client)
        {| req_idempotencyKey := key; req_file := file |}
        (opt_initOverrides options))
     pollOptions s,
   g').

Definition generateParseGraph (client : SupermodelClient) (file : Blob)
    (options : option GraphRequestOptions) (g : nat) (s : Session G)
  : (Completion G * Session G) * nat :=
  let (key, g') := request_key client options g in
  let pollOptions := poll_options client options in
  (pollUntilComplete
     (api_generateParseGraph (client_api client)
        {| req_idempotencyKey := key; req_file := file |}
        (opt_initOverrides options))
     pollOptions s,
   g').

Definition generateSupermodelGraph (client : SupermodelClient) (file : Blob)
    (options : option GraphRequestOptions) (g : nat) (s : Session I)
  : (Completion I * Session I) * nat :=
  let (key, g') := request_key client options g in
  let pollOptions := poll_options client options in
  (pollUntilComplete
     (api_generateSupermodelGraph (client_api client)
        {| req_idempotencyKey := key; req_file := file |}
        (opt_initOverrides options))
     pollOptions s,
   g').

(** [get rawApi()] *)
Definition rawApi (client : SupermodelClient) : DefaultApi := client_api client.

(** What it is for a method of the facade to be the poller run on one
    method of the API: [method] resolves the key and the signal and hands
    [call], applied to the key, the archive and the overrides, to
    [pollUntilComplete]. *)
Definition delegates_to {T : Type}
    (method : SupermodelClient -> Blob -> option GraphRequestOptions ->
              nat -> Session T -> (Completion T * Session T) * nat)
    (call : DefaultApi -> GraphRequest -> option InitOverrides -> nat -> Reply T)
  : Prop :=
  forall (client : SupermodelClient) (file : Blob)
         (options : option GraphRequestOptions) (g : nat) (s : Session T),
  exists (key : string) (g' : nat),
    method client file options g s =
    (pollUntilComplete
       (call (client_api client)
          {| req_idempotencyKey := key; req_file := file |}
          (opt_initOverrides options))
       (poll_options client options) s, g')
    /\ (forall k : string,
           opt_idempotencyKey options = Some k -> k <> ""%string ->
           key = k /\ g' = g)
    /\ (opt_idempotencyKey options = None
        \/ opt_idempotencyKey options = Some ""%string ->
        key = client_generateIdempotencyKey client g /\ g' = S g).

(** What it is for a method of the facade to be cancelled by the signal of
    the request: when that signal is aborted and an attempt is allowed, the
    method rejects with the cancellation error and the API is not called,
    whatever the signal of the client. *)
Definition cancelled_by_request_signal {T : Type}
    (method : SupermodelClient -> Blob -> option GraphRequestOptions ->
              nat -> Session T -> (Completion T * Session T) * nat)
  : Prop :=
  forall (client : SupermodelClient) (file : Blob) (o : GraphRequestOptions)
         (sg : AbortSignal) (g : nat) (s : Session T),
    o_signal o = Some sg ->
    aborted (Some sg) (now s) = true ->
    0 < with_default (maxPollingAttempts (client_options client)) 90 ->
    fst (fst (method client file (Some o) g s)) = Rejected AbortError
    /\ calls (snd (fst (method client file (Some o) g s))) = calls s
    /\ now (snd (fst (method client file (Some o) g s))) = now s.

End Facade.

Arguments req_idempotencyKey {Blob} _.
Arguments req_file {Blob} _.
Arguments o_idempotencyKey {InitOverrides} _.
Arguments o_initOverrides {InitOverrides} _.
Arguments o_signal {InitOverrides} _.
Arguments api_generateDependencyGraph {G D I Blob InitOverrides} _ _ _ _.
Arguments api_generateCallGraph {G D I Blob InitOverrides} _ _ _ _.
Arguments api_generateDomainGraph {G D I Blob InitOverrides} _ _ _ _.
Arguments api_generateParseGraph {G D I Blob InitOverrides} _ _ _ _.
Arguments api_generateSupermodelGraph {G D I Blob InitOverrides} _ _ _ _.
Arguments client_api {G D I Blob InitOverrides} _.
Arguments client_options {G D I Blob InitOverrides} _.
Arguments client_generateIdempotencyKey {G D I Blob InitOverrides} _ _.
Arguments new_SupermodelClient {G D I Blob InitOverrides} api options
  generateIdempotencyKey defaultGenerator.
Arguments opt_idempotencyKey {InitOverrides} options.
Arguments opt_initOverrides {InitOverrides} options.
Arguments opt_signal {InitOverrides} options.
Arguments request_key {G D I Blob InitOverrides} client options g.
Arguments poll_options {G D I Blob InitOverrides} client options.
Arguments generateDependencyGraph {G D I Blob InitOverrides} client file options g s.
Arguments generateCallGraph {G D I Blob InitOverrides} client file options g s.
Arguments generateDomainGraph {G D I Blob InitOverrides} client file options g s.
Arguments generateParseGraph {G D I Blob InitOverrides} client file options g s.
Arguments generateSupermodelGraph {G D I Blob InitOverrides} client file options g s.
Arguments rawApi {G D I Blob InitOverrides} client.
Arguments delegates_to {G D I Blob InitOverrides T} method call.
Arguments cancelled_by_request_signal {G D I Blob InitOverrides T} method.

(** A client and requests to evaluate the facade at: every method of the
    API returns [completed] with the idempotency key of the request as its
    result; the archive is a number. *)
Module FacadeScenario.

Definition echo (req : GraphRequest nat) (_ : option unit) (_ : nat)
  : Reply string :=
  {| latency := 10;
     settles := inl {| status := "completed"; jobId := "job-7";
                       retryAfter := None; error := None;
                       result := Some (req_idempotencyKey req) |} |}.

Definition echoApi : DefaultApi string string string nat unit :=
  {| api_generateDependencyGraph := echo;
     api_generateCallGraph := echo;
     api_generateDomainGraph := echo;
     api_generateParseGraph := echo;
     api_generateSupermodelGraph := echo |}.

(** A generator that returns "key-0" at its first invocation and "key-n"
    afterwards. *)
Definition keys (k : nat) : string :=
  match k with
  | O => "key-0"
  | S _ => "key-n"
  end.

(** A client whose own signal was aborted before time 0. *)
Definition client : SupermodelClient string string string nat unit :=
  new_SupermodelClient echoApi
    {| timeoutMs := None; defaultRetryIntervalMs := None;
       maxPollingAttempts := None; onPollingProgress := false;
       signal := Some {| abortedAt := Some (-1)%Q |} |}
    None keys.

(** Request options with key [k] and a signal that is aborted at [t]. *)
Definition request (k : option string) (t : option Q) : GraphRequestOptions unit :=
  {| o_idempotencyKey := k; o_initOverrides := None;
     o_signal := Some {| abortedAt := t |} |}.

Definition start : Session string :=
  {| now := 0; calls := 0; received := []; waits := []; reports := [];
     attempt := 0; sessionJobId := "" |}.

End FacadeScenario.

(** More inputs to evaluate runs at. *)
Module MoreScenarios.

(** Every call takes two seconds and returns [processing]. *)
Definition slow : nat -> Reply string :=
  Scenario.script [] (Scenario.returns 2000 Scenario.processing).

(** One [processing], then [completed] with result ["X"]. *)
Definition completesSecond : nat -> Reply string :=
  Scenario.script [Scenario.returns 0 Scenario.processing]
    (Scenario.returns 0 Scenario.completedX).

(** Scenario A's options with a progress callback. *)
Definition optionsWithCallback : AsyncClientOptions :=
  {| timeoutMs := Some 60000%Q; defaultRetryIntervalMs := None;
     maxPollingAttempts := Some 5; onPollingProgress := true;
     signal := None |}.

(** A random source that returns 1/2 for the first 31 draws. *)
Definition halfThenZero (k : nat) : Q :=
  if (k <? 31)%nat then 1 # 2 else 0.

(** A random source that returns 0 first and 1/2 ever after. *)
Definition zeroThenHalf (k : nat) : Q :=
  match k with
  | O => 0
  | S _ => 1 # 2
  end.

End MoreScenarios.

(** * Properties *)

Section PollerProperties.

Context {T : Type}.
Implicit Types (s : Session T) (e : AsyncEnvelope T).

(** ** Lists of envelopes *)

Lemma snoc_inversion (A : Type) (pre post pre' : list A) (x y : A) :
  pre ++ x :: post = pre' ++ [y] ->
  (post = [] /\ pre = pre' /\ x = y) \/ In x pre'.
Proof.
  revert pre'. induction pre as [|a pre IH]; intros pre' H.
  - destruct pre' as [|b pre']; cbn in H.
    + inversion H; subst. now left.
    + inversion H; subst. right. now left.
  - destruct pre' as [|b pre']; cbn in H.
    + inversion H as [[Ha Hp]]. destruct pre; discriminate.
    + inversion H as [[Ha Hp]]. subst b.
      destruct (IH _ Hp) as [(-> & -> & ->)|Hin].
      * now left.
      * right. now right.
Qed.

Lemma is_terminal_cases (st : string) :
  is_terminal st = true <-> st = "completed"%string \/ st = "failed"%string.
Proof.
  unfold is_terminal. rewrite orb_true_iff, !String.eqb_eq. tauto.
Qed.

Lemma is_terminal_false (st : string) :
  is_terminal st = false <-> st <> "completed"%string /\ st <> "failed"%string.
Proof.
  unfold is_terminal. rewrite orb_false_iff, !String.eqb_neq. tauto.
Qed.

(** ** The projections of [after_call] *)

Section AfterCall.

Variable apiCall : nat -> Reply T.
Variables (d : Q) (m : Z) (progress : bool) (t0 : Q).

Lemma after_call_now e s :
  now (after_call apiCall d m progress t0 e s)
  = (now s + latency (apiCall (calls s)))%Q.
Proof. unfold after_call. now destruct progress. Qed.

Lemma after_call_calls e s :
  calls (after_call apiCall d m progress t0 e s) = S (calls s).
Proof. unfold after_call. now destruct progress. Qed.

Lemma after_call_received e s :
  received (after_call apiCall d m progress t0 e s) = received s ++ [e].
Proof. unfold after_call. now destruct progress. Qed.

Lemma after_call_waits e s :
  waits (after_call apiCall d m progress t0 e s) = waits s.
Proof. unfold after_call. now destruct progress. Qed.

Lemma after_call_attempt e s :
  attempt (after_call apiCall d m progress t0 e s) = attempt s + 1.
Proof. unfold after_call. now destruct progress. Qed.

Lemma after_call_jobId e s :
  sessionJobId (after_call apiCall d m progress t0 e s) = jobId e.
Proof. unfold after_call. now destruct progress. Qed.

End AfterCall.

(** ** The abortable delay *)

Lemma sleepWithAbort_cases (ms : Q) (sg : option AbortSignal) s :
  (exists s', sleepWithAbort ms sg s = (Resolved tt, s')
              /\ now s' = (now s + timer_delay ms)%Q
              /\ calls s' = calls s /\ received s' = received s
              /\ waits s' = waits s ++ [ms]
              /\ attempt s' = attempt s /\ sessionJobId s' = sessionJobId s)
  \/ (exists s', sleepWithAbort ms sg s = (Rejected AbortError, s')
                 /\ aborted sg (now s') = true
                 /\ calls s' = calls s /\ received s' = received s
                 /\ attempt s' = attempt s /\ sessionJobId s' = sessionJobId s).
Proof.
  unfold sleepWithAbort.
  destruct (aborted sg (now s)) eqn:Hab.
  - right. exists s. repeat split; auto.
  - destruct (abort_event sg) as [a|] eqn:Hev.
    + destruct (Qle_bool (now s + timer_delay ms) a) eqn:Hfire.
      * left. eexists. split; [reflexivity|]. cbn. repeat split; auto.
      * right. eexists. split; [reflexivity|]. cbn.
        split; [|repeat split; auto].
        unfold aborted. destruct sg as [sg|]; [|discriminate].
        cbn in Hev. rewrite Hev. apply Qle_bool_iff. apply Qle_refl.
    + left. eexists. split; [reflexivity|]. cbn. repeat split; auto.
Qed.

(** ** One pass *)

Section Passes.

Variable apiCall : nat -> Reply T.
Variables (timeout defaultRetryInterval : Q) (maxAttempts : Z).
Variable progress : bool.
Variable abortSignal : option AbortSignal.
Variable startTime : Q.

#[local] Abbreviation attempt_once := (poll_attempt apiCall timeout
                    defaultRetryInterval maxAttempts progress abortSignal startTime).
#[local] Abbreviation body := (poll_body apiCall timeout defaultRetryInterval maxAttempts
                    progress abortSignal startTime).
#[local] Abbreviation loop := (poll_loop apiCall timeout defaultRetryInterval maxAttempts
                    progress abortSignal startTime).
#[local] Abbreviation step := (iteration apiCall timeout defaultRetryInterval maxAttempts
                    progress abortSignal startTime).
#[local] Abbreviation called := (after_call apiCall defaultRetryInterval maxAttempts
                      progress startTime).

(** A pass whose abort check passes is the attempt. *)
Lemma poll_body_attempt s :
  aborted abortSignal (now s) = false ->
  body s = attempt_once s.
Proof.
  intros Hab. unfold poll_body, signal_aborted, bind, read. now rewrite Hab.
Qed.

(** The attempt, when its call returns an envelope. *)
Lemma poll_attempt_received e s :
  Qle_bool timeout (now s - startTime) = false ->
  settles (apiCall (calls s)) = inl e ->
  attempt_once s =
  (if String.eqb (status e) "completed"
   then returning (verdict e)
   else if String.eqb (status e) "failed"
   then returning (verdict e)
   else continuing
          (fst (sleepWithAbort (retryAfterMs e defaultRetryInterval) abortSignal
                  (called e s))),
   if is_terminal (status e) then called e s
   else snd (sleepWithAbort (retryAfterMs e defaultRetryInterval) abortSignal
               (called e s))).
Proof.
  intros Hto Hcall.
  unfold poll_attempt, bind, Date_now, read, modify, throw, ret, invoke. cbn.
  rewrite Hto. cbn. rewrite Hcall. cbn.
  unfold after_call, verdict, is_terminal.
  destruct progress; cbn;
    destruct (String.eqb (status e) "completed") eqn:Hc; cbn.
  all: try (destruct (result e); reflexivity).
  all: destruct (String.eqb (status e) "failed") eqn:Hf; cbn; try reflexivity.
  all: match goal with
       | |- context [sleepWithAbort ?ms ?sg ?st] =>
           destruct (sleepWithAbort ms sg st) as [[u| |] ?]; try reflexivity
       end.
Qed.

(** The same for the pass. *)
Lemma poll_body_received e s :
  aborted abortSignal (now s) = false ->
  Qle_bool timeout (now s - startTime) = false ->
  settles (apiCall (calls s)) = inl e ->
  body s =
  (if String.eqb (status e) "completed"
   then returning (verdict e)
   else if String.eqb (status e) "failed"
   then returning (verdict e)
   else continuing
          (fst (sleepWithAbort (retryAfterMs e defaultRetryInterval) abortSignal
                  (called e s))),
   if is_terminal (status e) then called e s
   else snd (sleepWithAbort (retryAfterMs e defaultRetryInterval) abortSignal
               (called e s))).
Proof.
  intros Hab Hto Hcall.
  rewrite (poll_body_attempt s Hab). now apply poll_attempt_received.
Qed.

(** Every pass is one of the five. *)
Lemma poll_body_iteration s : step s (fst (body s)) (snd (body s)).
Proof.
  destruct (aborted abortSignal (now s)) eqn:Hab.
  - unfold poll_body, poll_attempt, signal_aborted, bind, Date_now, read, throw. cbn. rewrite Hab. cbn.
    now apply it_cancelled.
  - destruct (Qle_bool timeout (now s - startTime)) eqn:Hto.
    + unfold poll_body, poll_attempt, signal_aborted, bind, Date_now, read, modify, throw. cbn.
      rewrite Hab. cbn. rewrite Hto. cbn.
      now apply it_timed_out.
    + destruct (settles (apiCall (calls s))) as [e|[n m]] eqn:Hcall.
      * rewrite (poll_body_received e s Hab Hto Hcall). cbn [fst snd].
        destruct (is_terminal (status e)) eqn:Hterm.
        -- assert (Hv : (if String.eqb (status e) "completed"
                         then returning (verdict e)
                         else if String.eqb (status e) "failed"
                         then returning (verdict e)
                         else continuing
                                (fst (sleepWithAbort
                                        (retryAfterMs e defaultRetryInterval)
                                        abortSignal (called e s))))
                        = returning (verdict e)).
           { unfold is_terminal in Hterm.
             destruct (String.eqb (status e) "completed"); [reflexivity|].
             cbn in Hterm. now rewrite Hterm. }
           rewrite Hv. now apply it_settled.
        -- unfold is_terminal in Hterm. apply orb_false_iff in Hterm.
           destruct Hterm as [Hc Hf]. rewrite Hc, Hf.
           eapply it_waited; eauto.
           ++ unfold is_terminal. now rewrite Hc, Hf.
           ++ now destruct (sleepWithAbort _ _ _).
      * unfold poll_body, poll_attempt, signal_aborted, bind, Date_now, read, modify, throw, invoke. cbn.
        rewrite Hab. cbn. rewrite Hto. cbn. rewrite Hcall. cbn.
        now apply it_call_failed.
Qed.

(** The loop, one pass unrolled. *)
Lemma poll_loop_unroll (fuel : nat) s :
  loop (S fuel) s =
  if attempt s <? maxAttempts
  then
    match body s with
    | (Resolved (Return x), s') => (Resolved x, s')
    | (Resolved Continue, s') => loop fuel s'
    | (Rejected x, s') => (Rejected x, s')
    | (Unfinished, s') => (Unfinished, s')
    end
  else
    (Rejected (PollingTimeoutError (or_str (sessionJobId s) "unknown")
                 timeout (attempt s)), s).
Proof.
  cbn [poll_loop]. unfold bind, read, throw, ret. cbn.
  destruct (attempt s <? maxAttempts); [|reflexivity].
  destruct (body s) as [[[x|]| |] s']; reflexivity.
Qed.

Lemma poll_loop_exit (fuel : nat) s :
  maxAttempts <= attempt s ->
  loop fuel s =
  (Rejected (PollingTimeoutError (or_str (sessionJobId s) "unknown")
               timeout (attempt s)), s).
Proof.
  intros Hge. destruct fuel; cbn [poll_loop]; unfold bind, read, throw; cbn;
    destruct (Z.ltb_spec (attempt s) maxAttempts); try lia; reflexivity.
Qed.

(** What a pass that ends with a wait leaves behind. *)
Lemma wait_outcome e s c s' :
  sleepWithAbort (retryAfterMs e defaultRetryInterval) abortSignal (called e s)
  = (c, s') ->
  calls s' = S (calls s) /\ received s' = received s ++ [e]
  /\ attempt s' = attempt s + 1 /\ sessionJobId s' = jobId e
  /\ ((c = Resolved tt
       /\ waits s' = waits s ++ [retryAfterMs e defaultRetryInterval])
      \/ (c = Rejected AbortError /\ aborted abortSignal (now s') = true)).
Proof.
  intros H.
  destruct (sleepWithAbort_cases (retryAfterMs e defaultRetryInterval)
              abortSignal (called e s))
    as [(s2 & E & Hn & Hc & Hr & Hw & Ha & Hj)|(s2 & E & Hab & Hc & Hr & Ha & Hj)];
    rewrite E in H; inversion H; subst c s2;
    rewrite Hc, Hr, Ha, Hj, after_call_calls, after_call_received,
      after_call_attempt, after_call_jobId.
  - repeat split; auto. left. split; [reflexivity|].
    now rewrite Hw, after_call_waits.
  - repeat split; auto.
Qed.

(** The envelopes of a loop: as long as the loop runs they all leave the
    job running; the first terminal one is the last one received and
    decides the outcome. *)
Lemma poll_loop_trace (fuel : nat) : forall s c s',
  loop fuel s = (c, s') ->
  Forall nonterminal (received s) ->
  Forall nonterminal (received s')
  \/ exists pre e,
       received s' = (pre ++ [e])%list /\ Forall nonterminal pre
       /\ is_terminal (status e) = true /\ c = verdict e
       /\ (calls s = List.length (received s) -> calls s' = List.length (received s')).
Proof.
  induction fuel as [|fuel IH]; intros s c s' H Hnt.
  - cbn in H. unfold bind, read, throw in H. cbn in H.
    destruct (attempt s <? maxAttempts); inversion H; subst; now left.
  - rewrite poll_loop_unroll in H.
    destruct (attempt s <? maxAttempts); [|inversion H; subst; now left].
    pose proof (poll_body_iteration s) as Hit.
    destruct (body s) as [c1 s1]. cbn [fst snd] in Hit.
    inversion Hit as [Hab|Hab Hto|n m Hab Hto Hcall|e Hab Hto Hcall Hterm
                     |e c0 s2 Hab Hto Hcall Hterm Hsl]; subst.
    + inversion H; subst. now left.
    + inversion H; subst. now left.
    + inversion H; subst. now left.
    + right. exists (received s), e.
      assert (Hres : c = verdict e /\
                     s' = called e s).
      { destruct (verdict e) as [r| |]; cbn in H; inversion H; auto. }
      destruct Hres as [-> ->].
      rewrite after_call_received, after_call_calls.
      repeat split; auto.
      intros ->. rewrite length_app. cbn. lia.
    + destruct (wait_outcome e s c0 s1 Hsl)
        as (Hc & Hr & _ & _ & [[-> _]|[-> _]]); cbn in H.
      * assert (Hnt1 : Forall nonterminal (received s1)).
        { rewrite Hr. apply Forall_app. split; [assumption|].
          constructor; [exact Hterm|constructor]. }
        destruct (IH _ _ _ H Hnt1) as [Hall|(pre & e' & E & Hpre & Ht & Hv & Hcalls)].
        -- now left.
        -- right. exists pre, e'. repeat split; auto.
           intros Hs. apply Hcalls. rewrite Hc, Hr, Hs, length_app. cbn. lia.
      * inversion H; subst. left.
        rewrite Hr. apply Forall_app. split; [assumption|].
        constructor; [exact Hterm|constructor].
Qed.

(** Fuel: [maxAttempts - attempt] passes suffice, the loop settles. *)
Lemma poll_loop_settles (fuel : nat) : forall s,
  (Z.to_nat (maxAttempts - attempt s) <= fuel)%nat ->
  fst (loop fuel s) <> Unfinished.
Proof.
  induction fuel as [|fuel IH]; intros s Hfuel.
  - rewrite poll_loop_exit by lia. discriminate.
  - rewrite poll_loop_unroll.
    destruct (Z.ltb_spec (attempt s) maxAttempts) as [Hlt|Hge]; [|discriminate].
    pose proof (poll_body_iteration s) as Hit.
    destruct (body s) as [c1 s1]. cbn [fst snd] in Hit.
    inversion Hit as [Hab|Hab Hto|n m Hab Hto Hcall|e Hab Hto Hcall Hterm
                     |e c0 s2 Hab Hto Hcall Hterm Hsl]; subst;
      try discriminate.
    + unfold verdict.
      destruct (String.eqb (status e) "completed");
        [destruct (result e)|]; discriminate.
    + destruct (wait_outcome e s c0 s1 Hsl)
        as (_ & _ & Ha & _ & [[-> _]|[-> _]]); cbn; [|discriminate].
      apply IH. rewrite Ha. lia.
Qed.

(** A loop that leaves the counter at [maxAttempts], in which every call
    returned an envelope, none of them terminal, and whose signal is not
    aborted when it ends, ends with the timeout error of line 265 or of
    line 226, raised at the last attempt. *)
Lemma poll_loop_exhausted (fuel : nat) : forall s c s',
  loop fuel s = (c, s') ->
  (Z.to_nat (maxAttempts - attempt s) <= fuel)%nat ->
  calls s = List.length (received s) ->
  attempt s' = maxAttempts ->
  Forall nonterminal (received s') ->
  calls s' = List.length (received s') ->
  aborted abortSignal (now s') = false ->
  c = Rejected (PollingTimeoutError (or_str (sessionJobId s') "unknown")
                  timeout maxAttempts).
Proof.
  induction fuel as [|fuel IH]; intros s c s' H Hfuel Hinv Hatt Hnt Hcalls Hab'.
  - rewrite poll_loop_exit in H by lia. injection H as Hc Hs; subst c s'. now rewrite Hatt.
  - rewrite poll_loop_unroll in H.
    destruct (Z.ltb_spec (attempt s) maxAttempts) as [Hlt|Hge];
      [|injection H as Hc Hs; subst c s'; now rewrite Hatt].
    pose proof (poll_body_iteration s) as Hit.
    destruct (body s) as [c1 s1]. cbn [fst snd] in Hit.
    inversion Hit as [Hab|Hab Hto|n m Hab Hto Hcall|e Hab Hto Hcall Hterm
                     |e c0 s2 Hab Hto Hcall Hterm Hsl];
      try subst s2; subst c1; try subst s1.
    + injection H as Hc Hs; subst c s'. lia.
    + injection H as Hc Hs; subst c s'. cbn in Hatt. cbn. now rewrite Hatt.
    + injection H as Hc Hs; subst c s'. cbn in Hcalls. lia.
    + assert (Hs : s' = called e s).
      { destruct (verdict e); cbn in H; now inversion H. }
      subst s'. rewrite after_call_received in Hnt.
      apply Forall_app in Hnt. destruct Hnt as [_ Hnt].
      inversion Hnt as [|? ? He _]. unfold nonterminal in He. congruence.
    + destruct (wait_outcome e s c0 s1 Hsl)
        as (Hc & Hr & Ha & _ & [[-> _]|[-> Habw]]); cbn in H.
      * apply (IH s1); auto.
        -- rewrite Ha. lia.
        -- rewrite Hc, Hr, Hinv, length_app. cbn. lia.
      * injection H as Hc' Hs; subst c s'. congruence.
Qed.

End Passes.

(** ** Whole runs *)

Lemma pollUntilComplete_loop (apiCall : nat -> Reply T)
    (options : AsyncClientOptions) s :
  pollUntilComplete apiCall options s =
  poll_loop apiCall
    (with_default (timeoutMs options) 900000%Q)
    (with_default (defaultRetryIntervalMs options) 10000%Q)
    (with_default (maxPollingAttempts options) 90)
    (onPollingProgress options) (signal options) (now s)
    (Z.to_nat (with_default (maxPollingAttempts options) 90))
    (set_jobId "" (set_attempt 0 s)).
Proof. reflexivity. Qed.

Lemma run_loop (apiCall : nat -> Reply T) (options : AsyncClientOptions) (t0 : Q) :
  run apiCall options t0 =
  poll_loop apiCall
    (with_default (timeoutMs options) 900000%Q)
    (with_default (defaultRetryIntervalMs options) 10000%Q)
    (with_default (maxPollingAttempts options) 90)
    (onPollingProgress options) (signal options) t0
    (Z.to_nat (with_default (maxPollingAttempts options) 90))
    (fresh_session t0).
Proof. reflexivity. Qed.

(** The poller always settles: the fuel handed to the loop is never used up. *)
Lemma pollUntilComplete_settles (apiCall : nat -> Reply T)
    (options : AsyncClientOptions) s :
  fst (pollUntilComplete apiCall options s) <> Unfinished.
Proof.
  rewrite pollUntilComplete_loop. apply poll_loop_settles. cbn. lia.
Qed.

(** In a run, a terminal envelope is the last envelope received, it was the
    answer to the last call issued, and it decides how the run settles. *)
Lemma terminal_envelope_is_last (apiCall : nat -> Reply T)
    (options : AsyncClientOptions) (t0 : Q) (c : Completion T) s'
    (pre post : list (AsyncEnvelope T)) e :
  run apiCall options t0 = (c, s') ->
  received s' = (pre ++ e :: post)%list ->
  is_terminal (status e) = true ->
  c = verdict e /\ post = [] /\ calls s' = S (List.length pre).
Proof.
  intros Hrun Hrec Hterm. rewrite run_loop in Hrun.
  destruct (poll_loop_trace _ _ _ _ _ _ _ _ _ _ _ Hrun (Forall_nil _))
    as [Hall|(pre' & e' & E & Hpre & Ht & Hv & Hcalls)].
  - rewrite Hrec in Hall. apply Forall_app in Hall. destruct Hall as [_ Hall].
    inversion Hall as [|? ? He _]. unfold nonterminal in He. congruence.
  - rewrite Hrec in E.
    destruct (snoc_inversion _ _ _ _ _ _ E) as [(-> & -> & ->)|Hin].
    + repeat split; auto.
      rewrite (Hcalls eq_refl), Hrec, length_app. cbn. lia.
    + rewrite Forall_forall in Hpre. specialize (Hpre _ Hin).
      unfold nonterminal in Hpre. congruence.
Qed.

(** C1. Whenever the submit/check operation returns an envelope with status
    [completed] and a present result, the run returns exactly that result,
    and that envelope is the last one: it answers the last call issued,
    nothing is called after it. *)
Theorem completed_result_is_returned (apiCall : nat -> Reply T)
    (options : AsyncClientOptions) (t0 : Q) (c : Completion T) s'
    (pre post : list (AsyncEnvelope T)) e (r : T) :
  run apiCall options t0 = (c, s') ->
  received s' = (pre ++ e :: post)%list ->
  status e = "completed"%string ->
  result e = Some r ->
  c = Resolved r /\ post = [] /\ calls s' = S (List.length pre).
Proof.
  intros Hrun Hrec Hst Hres.
  destruct (terminal_envelope_is_last _ _ _ _ _ _ _ _ Hrun Hrec)
    as (Hc & Hpost & Hcalls).
  - apply is_terminal_cases. now left.
  - repeat split; auto.
    rewrite Hc. unfold verdict. now rewrite Hst, Hres.
Qed.

(** C2 (amended). Whenever the operation returns an envelope with status
    [failed], the run raises a [JobFailedError] with the job id of that
    envelope and with its error message when that is present and not empty,
    with the placeholder ['Unknown error'] when it is absent or empty; that
    envelope is the last one. *)
Theorem failed_job_raises_JobFailedError (apiCall : nat -> Reply T)
    (options : AsyncClientOptions) (t0 : Q) (c : Completion T) s'
    (pre post : list (AsyncEnvelope T)) e :
  run apiCall options t0 = (c, s') ->
  received s' = (pre ++ e :: post)%list ->
  status e = "failed"%string ->
  exists msg : string,
    c = Rejected (JobFailedError (jobId e) msg)
    /\ (forall m, error e = Some m -> m <> ""%string -> msg = m)
    /\ (error e = None \/ error e = Some ""%string -> msg = "Unknown error"%string)
    /\ post = [] /\ calls s' = S (List.length pre).
Proof.
  intros Hrun Hrec Hst.
  destruct (terminal_envelope_is_last _ _ _ _ _ _ _ _ Hrun Hrec)
    as (Hc & Hpost & Hcalls).
  - apply is_terminal_cases. now right.
  - exists (or_string (error e) "Unknown error"). repeat split; auto.
    + rewrite Hc. unfold verdict. now rewrite Hst.
    + intros m Hm Hne. rewrite Hm. cbn. unfold or_str.
      apply String.eqb_neq in Hne. now rewrite Hne.
    + intros [Hm|Hm]; rewrite Hm; reflexivity.
Qed.

(** C7. Whenever the operation returns an envelope with status [completed]
    and no result, the run raises the plain error "Job <id> completed but
    result is undefined": it neither returns nor polls again. *)
Theorem completed_without_result_is_fatal (apiCall : nat -> Reply T)
    (options : AsyncClientOptions) (t0 : Q) (c : Completion T) s'
    (pre post : list (AsyncEnvelope T)) e :
  run apiCall options t0 = (c, s') ->
  received s' = (pre ++ e :: post)%list ->
  status e = "completed"%string ->
  result e = None ->
  c = Rejected (JsError "Error"
                  ("Job " ++ jobId e ++ " completed but result is undefined"))
  /\ (forall r, c <> Resolved r)
  /\ post = [] /\ calls s' = S (List.length pre).
Proof.
  intros Hrun Hrec Hst Hres.
  destruct (terminal_envelope_is_last _ _ _ _ _ _ _ _ Hrun Hrec)
    as (Hc & Hpost & Hcalls).
  - apply is_terminal_cases. now left.
  - assert (E : c = Rejected (JsError "Error"
                  ("Job " ++ jobId e ++ " completed but result is undefined"))).
    { rewrite Hc. unfold verdict. now rewrite Hst, Hres. }
    repeat split; auto. intros r. rewrite E. discriminate.
Qed.

(** C3 (amended). In every run in which the attempt counter reaches
    [maxPollingAttempts], every call returned an envelope, none of them
    terminal, and the signal is not aborted by the time the run ends (so not
    during the wait after the last attempt), a [PollingTimeoutError] is
    raised whose attempts field is [maxPollingAttempts]. *)
Theorem exhausted_attempts_raise_timeout (apiCall : nat -> Reply T)
    (options : AsyncClientOptions) (t0 : Q) (c : Completion T) s' :
  run apiCall options t0 = (c, s') ->
  attempt s' = with_default (maxPollingAttempts options) 90 ->
  Forall nonterminal (received s') ->
  calls s' = List.length (received s') ->
  aborted (signal options) (now s') = false ->
  c = Rejected (PollingTimeoutError
                  (or_str (sessionJobId s') "unknown")
                  (with_default (timeoutMs options) 900000%Q)
                  (with_default (maxPollingAttempts options) 90)).
Proof.
  intros Hrun Hatt Hnt Hcalls Hab. rewrite run_loop in Hrun.
  eapply poll_loop_exhausted; eauto.
  cbn. lia.
Qed.

(** ** Single passes of the loop *)

Section Checks.

Variable apiCall : nat -> Reply T.
Variables (timeout defaultRetryInterval : Q) (maxAttempts : Z).
Variable progress : bool.
Variable abortSignal : option AbortSignal.
Variable startTime : Q.

#[local] Abbreviation attempt_once := (poll_attempt apiCall timeout
  defaultRetryInterval maxAttempts progress abortSignal startTime).
#[local] Abbreviation body := (poll_body apiCall timeout defaultRetryInterval
  maxAttempts progress abortSignal startTime).
#[local] Abbreviation loop := (poll_loop apiCall timeout defaultRetryInterval
  maxAttempts progress abortSignal startTime).
#[local] Abbreviation called := (after_call apiCall defaultRetryInterval
  maxAttempts progress startTime).

Lemma poll_body_cancelled s :
  aborted abortSignal (now s) = true ->
  body s = (Rejected AbortError, s).
Proof.
  intros Hab. unfold poll_body, poll_attempt, signal_aborted, bind, Date_now, read, throw. cbn.
  now rewrite Hab.
Qed.

Lemma poll_body_timed_out s :
  aborted abortSignal (now s) = false ->
  (timeout <= now s - startTime)%Q ->
  body s =
  (Rejected (PollingTimeoutError (or_str (sessionJobId s) "unknown") timeout
               (attempt s + 1)),
   set_attempt (attempt s + 1) s).
Proof.
  intros Hab Hto. apply Qle_bool_iff in Hto.
  unfold poll_body, poll_attempt, signal_aborted, bind, Date_now, read, modify, throw. cbn.
  rewrite Hab. cbn. now rewrite Hto.
Qed.

Lemma Qle_bool_false (x y : Q) : (y < x)%Q -> Qle_bool x y = false.
Proof.
  intros H. destruct (Qle_bool x y) eqn:E; [|reflexivity].
  apply Qle_bool_iff in E. exfalso. eapply Qlt_irrefl, Qlt_le_trans; eauto.
Qed.

Lemma poll_attempt_running e s :
  (now s - startTime < timeout)%Q ->
  settles (apiCall (calls s)) = inl e ->
  status e <> "completed"%string ->
  status e <> "failed"%string ->
  attempt_once s =
  (continuing (fst (sleepWithAbort (retryAfterMs e defaultRetryInterval)
                      abortSignal (called e s))),
   snd (sleepWithAbort (retryAfterMs e defaultRetryInterval) abortSignal
          (called e s))).
Proof.
  intros Hto Hcall Hc Hf.
  rewrite (poll_attempt_received _ _ _ _ _ _ _ e s (Qle_bool_false _ _ Hto) Hcall).
  apply String.eqb_neq in Hc, Hf. unfold is_terminal. now rewrite Hc, Hf.
Qed.

Lemma poll_body_running e s :
  aborted abortSignal (now s) = false ->
  (now s - startTime < timeout)%Q ->
  settles (apiCall (calls s)) = inl e ->
  status e <> "completed"%string ->
  status e <> "failed"%string ->
  body s =
  (continuing (fst (sleepWithAbort (retryAfterMs e defaultRetryInterval)
                      abortSignal (called e s))),
   snd (sleepWithAbort (retryAfterMs e defaultRetryInterval) abortSignal
          (called e s))).
Proof.
  intros Hab Hto Hcall Hc Hf.
  rewrite (poll_body_attempt _ _ _ _ _ _ _ s Hab).
  now apply poll_attempt_running.
Qed.

Lemma poll_attempt_timed_out s :
  (timeout <= now s - startTime)%Q ->
  attempt_once s =
  (Rejected (PollingTimeoutError (or_str (sessionJobId s) "unknown") timeout
               (attempt s + 1)),
   set_attempt (attempt s + 1) s).
Proof.
  intros Hto. apply Qle_bool_iff in Hto.
  unfold poll_attempt, bind, Date_now, read, modify, throw. cbn.
  now rewrite Hto.
Qed.

(** C4 (amended). In every attempt the elapsed-time check comes before the call: if
    the time elapsed since the start of the session is at least [timeoutMs]
    when the attempt starts, the attempt raises a [PollingTimeoutError] and
    its call is not issued: nothing is called, received or waited for, and
    the clock has not moved.  So ends the loop on every pass that starts
    such an attempt (the signal is not aborted and the attempt budget is
    not exhausted, whatever is left of it). *)
Theorem timeout_is_checked_before_the_call s :
  (timeout <= now s - startTime)%Q ->
  exists s',
    attempt_once s =
    (Rejected (PollingTimeoutError (or_str (sessionJobId s) "unknown") timeout
                 (attempt s + 1)), s')
    /\ calls s' = calls s /\ received s' = received s
    /\ waits s' = waits s /\ now s' = now s
    /\ forall fuel : nat,
         attempt s < maxAttempts ->
         aborted abortSignal (now s) = false ->
         loop (S fuel) s =
         (Rejected (PollingTimeoutError (or_str (sessionJobId s) "unknown")
                      timeout (attempt s + 1)), s').
Proof.
  intros Hto.
  exists (set_attempt (attempt s + 1) s).
  split; [now apply poll_attempt_timed_out|].
  repeat split.
  intros fuel Hlt Hab.
  rewrite poll_loop_unroll, (poll_body_timed_out s Hab Hto).
  destruct (Z.ltb_spec (attempt s) maxAttempts); [reflexivity|lia].
Qed.

(** C5 (amended). A triggered cancellation handle makes the poller raise the
    error named ['AbortError'], a name no timeout error has, in these cases.
    Before an attempt, while the attempt budget is not exhausted: the error
    is raised at once and no call is issued.  When a wait is about to start:
    the delay rejects at once and no timer is started.  During a wait: the
    delay, and with it the poller, rejects at the instant of the abort,
    before the interval is over. *)
Theorem cancellation_raises_AbortError :
  (forall (fuel : nat) s,
      attempt s < maxAttempts ->
      aborted abortSignal (now s) = true ->
      loop (S fuel) s = (Rejected AbortError, s))
  /\ (forall (ms : Q) s,
         aborted abortSignal (now s) = true ->
         sleepWithAbort ms abortSignal s = (Rejected AbortError, s))
  /\ (forall (ms a : Q) s,
         abort_event abortSignal = Some a ->
         (now s < a)%Q -> (a < now s + ms)%Q ->
         sleepWithAbort ms abortSignal s
         = (Rejected AbortError, set_now a (log_wait ms s)))
  /\ (forall (fuel : nat) s e (a : Q),
         attempt s < maxAttempts ->
         (now s - startTime < timeout)%Q ->
         settles (apiCall (calls s)) = inl e ->
         status e <> "completed"%string ->
         status e <> "failed"%string ->
         abort_event abortSignal = Some a ->
         (now s + latency (apiCall (calls s)) < a)%Q ->
         (a < now s + latency (apiCall (calls s))
              + retryAfterMs e defaultRetryInterval)%Q ->
         (0 <= latency (apiCall (calls s)))%Q ->
         loop (S fuel) s
         = (Rejected AbortError,
            set_now a (log_wait (retryAfterMs e defaultRetryInterval)
                         (called e s))))
  /\ error_name AbortError = "AbortError"%string
  /\ (forall (j : string) (t : Q) (n : Z),
         error_name (PollingTimeoutError j t n) <> error_name AbortError).
Proof.
  assert (Hsleep : forall (ms a : Q) s,
             abort_event abortSignal = Some a ->
             (now s < a)%Q -> (a < now s + ms)%Q ->
             sleepWithAbort ms abortSignal s
             = (Rejected AbortError, set_now a (log_wait ms s))).
  { intros ms a s Hev Hlo Hhi. unfold sleepWithAbort.
    assert (Hab : aborted abortSignal (now s) = false).
    { unfold aborted. destruct abortSignal as [sg|]; [|reflexivity].
      cbn in Hev. rewrite Hev. now apply Qle_bool_false. }
    rewrite Hab, Hev.
    assert (Hpos : (0 < ms)%Q) by lra.
    unfold timer_delay. rewrite (Qle_bool_false ms 0 Hpos).
    now rewrite (Qle_bool_false _ _ Hhi). }
  assert (Habort : forall a t, abort_event abortSignal = Some a -> (t < a)%Q ->
                          aborted abortSignal t = false).
  { intros a t Hev Hlt. unfold aborted.
    destruct abortSignal as [sg|]; [|reflexivity].
    cbn in Hev. rewrite Hev. now apply Qle_bool_false. }
  repeat split.
  - intros fuel s Hlt Hab.
    rewrite poll_loop_unroll, (poll_body_cancelled s Hab).
    destruct (Z.ltb_spec (attempt s) maxAttempts); [reflexivity|lia].
  - intros ms s Hab. unfold sleepWithAbort. now rewrite Hab.
  - exact Hsleep.
  - intros fuel s e a Hlt Hto Hcall Hc Hf Hev Hlo Hhi Hlat.
    assert (Hab : aborted abortSignal (now s) = false).
    { apply (Habort a); [assumption|]. lra. }
    rewrite poll_loop_unroll, (poll_body_running e s Hab Hto Hcall Hc Hf).
    destruct (Z.ltb_spec (attempt s) maxAttempts); [|lia].
    rewrite (Hsleep (retryAfterMs e defaultRetryInterval) a (called e s) Hev).
    + reflexivity.
    + now rewrite after_call_now.
    + now rewrite after_call_now.
  - intros j t n. cbn. discriminate.
Qed.

(** A delay that starts while the signal is not aborted starts a timer of
    the requested duration. *)
Lemma sleepWithAbort_timer (ms : Q) s :
  aborted abortSignal (now s) = false ->
  waits (snd (sleepWithAbort ms abortSignal s)) = (waits s ++ [ms])%list.
Proof.
  intros Hab. unfold sleepWithAbort. rewrite Hab.
  destruct (abort_event abortSignal) as [a|]; [|reflexivity].
  now destruct (Qle_bool (now s + timer_delay ms) a).
Qed.

(** C6 (amended). After every envelope whose status is neither [completed]
    nor [failed] the attempt ends with the abortable delay, and the duration
    it asks for is the server's [retryAfter] times 1000 when [retryAfter]
    is present and not zero, negative values included, and
    [defaultRetryIntervalMs] when it is absent or zero.  Unless the signal
    is aborted when the call returns, a timer of that duration is started. *)
Theorem wait_duration_selection e s :
  (now s - startTime < timeout)%Q ->
  settles (apiCall (calls s)) = inl e ->
  status e <> "completed"%string ->
  status e <> "failed"%string ->
  exists w : Q,
    attempt_once s =
    (continuing (fst (sleepWithAbort w abortSignal (called e s))),
     snd (sleepWithAbort w abortSignal (called e s)))
    /\ (aborted abortSignal (now s + latency (apiCall (calls s)))%Q = false ->
        waits (snd (attempt_once s)) = (waits s ++ [w])%list)
    /\ (forall r : Q, retryAfter e = Some r -> ~ r == 0 -> w = (r * 1000)%Q)
    /\ (retryAfter e = None \/ (exists r : Q, retryAfter e = Some r /\ r == 0) ->
        w == defaultRetryInterval).
Proof.
  intros Hto Hcall Hc Hf.
  exists (retryAfterMs e defaultRetryInterval).
  rewrite (poll_attempt_running e s Hto Hcall Hc Hf). cbn [snd].
  split; [reflexivity|]. split.
  { intros Hab'.
    rewrite sleepWithAbort_timer by (now rewrite after_call_now).
    now rewrite after_call_waits. }
  unfold retryAfterMs, or_number. split.
  - intros r Hr Hnz. rewrite Hr.
    destruct (Qeq_bool r 0) eqn:E; [|reflexivity].
    apply Qeq_bool_iff in E. contradiction.
  - intros [Hr|(r & Hr & Hz)]; rewrite Hr.
    + field.
    + apply Qeq_bool_iff in Hz. rewrite Hz. field.
Qed.


End Checks.

(** C10. With [maxPollingAttempts] zero or negative the poller raises, at
    once, a [PollingTimeoutError] with job id ['unknown'] and 0 attempts:
    nothing is called or waited for, the clock does not move, and the
    signal is not looked at, so that an aborted signal makes no difference. *)
Theorem no_attempt_budget_raises_timeout (apiCall : nat -> Reply T)
    (options : AsyncClientOptions) s :
  with_default (maxPollingAttempts options) 90 <= 0 ->
  exists s',
    pollUntilComplete apiCall options s =
    (Rejected (PollingTimeoutError "unknown"
                 (with_default (timeoutMs options) 900000%Q) 0), s')
    /\ calls s' = calls s /\ received s' = received s
    /\ waits s' = waits s /\ now s' = now s.
Proof.
  intros Hmax. exists (set_jobId "" (set_attempt 0 s)).
  rewrite pollUntilComplete_loop, poll_loop_exit by (cbn; lia).
  repeat split.
Qed.

End PollerProperties.

(** ** The scenarios of the specification, evaluated *)

Section Examples.

Import Scenario.

(** Scenario A: the result is returned after exactly two calls and one wait
    of 1000 ms. *)
Lemma scenario_A_returns_X :
  fst (run scenarioA optionsA 0) = Resolved "X"%string
  /\ calls (snd (run scenarioA optionsA 0)) = 2%nat
  /\ waits (snd (run scenarioA optionsA 0)) = [1000%Q].
Proof.
  destruct (completed_result_is_returned scenarioA optionsA 0
              (fst (run scenarioA optionsA 0)) (snd (run scenarioA optionsA 0))
              [pending1] [] completedX "X"%string)
    as (Hc & _ & Hn).
  - apply surjective_pairing.
  - vm_compute. reflexivity.
  - reflexivity.
  - reflexivity.
  - split; [exact Hc|split; [exact Hn|vm_compute; reflexivity]].
Defined.

(** Scenario C: the job failure carries the server's message. *)
Lemma scenario_C_job_failure :
  fst (run (always failedBad) defaults 0)
  = Rejected (JobFailedError "job-1" "bad archive").
Proof.
  destruct (failed_job_raises_JobFailedError (always failedBad) defaults 0
              (fst (run (always failedBad) defaults 0))
              (snd (run (always failedBad) defaults 0))
              [] [] failedBad)
    as (msg & Hc & Hm & _).
  - apply surjective_pairing.
  - vm_compute. reflexivity.
  - reflexivity.
  - rewrite Hc, (Hm "bad archive"%string eq_refl); [reflexivity|discriminate].
Defined.

(** An error message that is present but empty is not carried over: the
    placeholder takes its place. *)
Lemma empty_error_message_is_replaced :
  status failedEmpty = "failed"%string
  /\ error failedEmpty = Some ""%string
  /\ fst (run (always failedEmpty) defaults 0)
     = Rejected (JobFailedError "job-1" "Unknown error")
  /\ "Unknown error"%string <> ""%string.
Proof.
  repeat split; try reflexivity. discriminate.
Qed.

(** Scenario B: [processing] for ever, three attempts allowed. *)
Lemma scenario_B_polling_timeout :
  fst (run (always processing) (options None (Some 3) None) 0)
  = Rejected (PollingTimeoutError "job-1" 900000 3).
Proof.
  rewrite (exhausted_attempts_raise_timeout (always processing)
             (options None (Some 3) None) 0
             (fst (run (always processing) (options None (Some 3) None) 0))
             (snd (run (always processing) (options None (Some 3) None) 0))).
  - vm_compute. reflexivity.
  - apply surjective_pairing.
  - vm_compute. reflexivity.
  - assert (E : received (snd (run (always processing)
                                 (options None (Some 3) None) 0))
                = [processing; processing; processing])
      by (vm_compute; reflexivity).
    rewrite E. repeat constructor.
  - vm_compute. reflexivity.
  - reflexivity.
Defined.

(** One attempt allowed, the envelope says [processing], and the signal is
    aborted 5 s into the 10 s wait that follows: the attempt counter has
    reached [maxPollingAttempts], no envelope is terminal, and the error is
    the cancellation error, not a timeout error. *)
Lemma abort_in_last_wait_preempts_timeout :
  let opts := options None (Some 1) (abortsAt 5000) in
  let out := run (always processing) opts 0 in
  attempt (snd out) = with_default (maxPollingAttempts opts) 90
  /\ received (snd out) = [processing]
  /\ nonterminal processing
  /\ fst out = Rejected AbortError
  /\ (forall (j : string) (t : Q) (n : Z),
         fst out <> Rejected (PollingTimeoutError j t n)).
Proof.
  cbv zeta. repeat split; try (vm_compute; reflexivity).
  intros j t n. vm_compute. discriminate.
Qed.

(** 1.5 s into a run with a time budget of 1 s and 4 attempts left: the
    second call is not made. *)
Lemma over_time_before_second_call :
  exists s',
    poll_attempt (always processing) 1000 10000 5 false None 0 midway
    = (Rejected (PollingTimeoutError "job-1" 1000 2), s')
    /\ calls s' = 1%nat /\ received s' = [processing]
    /\ waits s' = [1000%Q] /\ now s' = 1500%Q
    /\ forall fuel : nat,
         1 < 5 ->
         aborted None 1500 = false ->
         poll_loop (always processing) 1000 10000 5 false None 0 (S fuel) midway
         = (Rejected (PollingTimeoutError "job-1" 1000 2), s').
Proof.
  apply (timeout_is_checked_before_the_call (always processing) 1000 10000 5
           false None 0 midway).
  vm_compute. discriminate.
Defined.

(** A time budget of 0 ms, 5 attempts allowed and a signal that is already
    aborted: at the first pass the time elapsed (0 ms) has reached
    [timeoutMs] and the attempt budget is not exhausted, yet the error is
    the cancellation error, not a timeout error; no call is made.  Without
    the signal the same run raises the timeout error. *)
Lemma aborted_signal_preempts_timeout :
  let opts := options (Some 0%Q) (Some 5) (abortsAt 0) in
  let out := run (always processing) opts 0 in
  (with_default (timeoutMs opts) 900000 <= 0 - 0)%Q
  /\ 0 < with_default (maxPollingAttempts opts) 90
  /\ received (snd out) = []
  /\ calls (snd out) = 0%nat
  /\ fst out = Rejected AbortError
  /\ (forall (j : string) (t : Q) (n : Z),
         fst out <> Rejected (PollingTimeoutError j t n))
  /\ fst (run (always processing) (options (Some 0%Q) (Some 5) None) 0)
     = Rejected (PollingTimeoutError "unknown" 0 1).
Proof.
  cbv zeta. repeat split; try (vm_compute; reflexivity).
  - vm_compute. discriminate.
  - intros j t n. vm_compute. discriminate.
Qed.

(** Cancellation before an attempt and in the middle of a wait. *)
Lemma cancelled_before_attempt_and_during_wait :
  poll_loop (always processing) 900000 10000 90 false (abortsAt 1200) 0 89 midway
  = (Rejected AbortError, midway)
  /\ sleepWithAbort 10000 (abortsAt 4000) midway
     = (Rejected AbortError, set_now 4000 (log_wait 10000 midway)).
Proof.
  split.
  - apply (cancellation_raises_AbortError (always processing) 900000 10000 90
             false (abortsAt 1200) 0).
    + cbn. lia.
    + reflexivity.
  - apply (cancellation_raises_AbortError (always processing) 900000 10000 90
             false (abortsAt 4000) 0); reflexivity.
Defined.

(** No attempt allowed and a signal that is already aborted: the handle is
    triggered before any call, and the error is the timeout error. *)
Lemma aborted_signal_without_budget_times_out :
  let opts := options None (Some 0) (abortsAt 0) in
  aborted (signal opts) 0 = true
  /\ run (always processing) opts 0
     = (Rejected (PollingTimeoutError "unknown" 900000 0), fresh_session 0)
  /\ error_name (PollingTimeoutError "unknown" 900000 0) <> "AbortError"%string.
Proof.
  cbv zeta. repeat split. discriminate.
Qed.

(** [retryAfter = 5] with the default interval of 10000 ms: the wait is
    5000 ms.  No [retryAfter]: the wait is the default interval. *)
Lemma retryAfter_5_waits_5000 :
  waits (snd (poll_attempt (always processing5) 900000 10000 90 false None 0
                (fresh_session 0)))
  = [5000%Q]
  /\ exists w : Q,
       waits (snd (poll_attempt (always processing) 900000 10000 90 false None 0
                     (fresh_session 0)))
       = [w]
       /\ w == 10000.
Proof.
  split.
  - destruct (wait_duration_selection (always processing5) 900000 10000 90 false
                None 0 processing5 (fresh_session 0))
      as (w & _ & Hw & Hsel & _);
      [reflexivity|reflexivity|discriminate|discriminate|].
    rewrite (Hw eq_refl), (Hsel 5%Q eq_refl); [reflexivity|discriminate].
  - destruct (wait_duration_selection (always processing) 900000 10000 90 false
                None 0 processing (fresh_session 0))
      as (w & _ & Hw & _ & Hdef);
      [reflexivity|reflexivity|discriminate|discriminate|].
    exists w. split; [exact (Hw eq_refl)|]. apply Hdef. now left.
Defined.

(** [retryAfter = -5] is present and not positive, and the timer is started
    with -5000 ms, not with the default interval of 10000 ms. *)
Lemma negative_retryAfter_is_waited :
  let out := run (always processingNeg) (options None (Some 1) None) 0 in
  retryAfter processingNeg = Some (-5)%Q
  /\ waits (snd out) = [(-5000)%Q]
  /\ ~ (-5000 == 10000).
Proof.
  cbv zeta. repeat split. discriminate.
Qed.

(** Scenario D: [completed] without a result is an error. *)
Lemma scenario_D_protocol_violation :
  fst (run (always completedNothing) defaults 0)
  = Rejected (JsError "Error" "Job job-1 completed but result is undefined").
Proof.
  destruct (completed_without_result_is_fatal (always completedNothing) defaults 0
              (fst (run (always completedNothing) defaults 0))
              (snd (run (always completedNothing) defaults 0))
              [] [] completedNothing)
    as (Hc & _).
  - apply surjective_pairing.
  - vm_compute. reflexivity.
  - reflexivity.
  - reflexivity.
  - exact Hc.
Defined.


(** No attempt allowed, signal already aborted. *)
Lemma zero_budget_with_aborted_signal :
  aborted (abortsAt 0) 0 = true
  /\ exists s',
       pollUntilComplete (always processing) (options None (Some 0) (abortsAt 0))
         (fresh_session 0)
       = (Rejected (PollingTimeoutError "unknown" 900000 0), s')
       /\ calls s' = 0%nat /\ received s' = [] /\ waits s' = [] /\ now s' = 0%Q.
Proof.
  split; [reflexivity|].
  apply (no_attempt_budget_raises_timeout (always processing)
           (options None (Some 0) (abortsAt 0)) (fresh_session 0)).
  cbn. lia.
Defined.

End Examples.

(** ** The retry interval on doubles *)

(** On doubles the two examples of the specification come out as in exact
    arithmetic.  Division by 1000 followed by multiplication by 1000 is not
    the identity on every double, though: 1001 comes back as
    1000.9999999999999. *)
Lemma retry_interval_on_doubles :
  PrimFloat.eqb (Double.retryAfterMs (Some 5%float) 10000%float) 5000%float = true
  /\ PrimFloat.eqb (Double.retryAfterMs None 10000%float) 10000%float = true
  /\ PrimFloat.eqb (Double.retryAfterMs (Some (-5)%float) 10000%float)
       (-5000)%float = true
  /\ PrimFloat.eqb (Double.retryAfterMs None 1001%float) 1001%float = false
  /\ PrimFloat.ltb (Double.retryAfterMs None 1001%float) 1001%float = true.
Proof. repeat split; vm_compute; reflexivity. Qed.

(** ** The fallback idempotency key *)

Section KeyProperties.

Import IdempotencyKey.

(** [(Math.random() * 16) | 0] is one of 0, ..., 15. *)
Lemma random_nibble (q : Q) :
  (0 <= q)%Q -> (q < 1)%Q ->
  to_int32 (q * 16) = Qfloor (q * 16) /\ 0 <= Qfloor (q * 16) <= 15.
Proof.
  intros H0 H1.
  assert (Hnn : (0 <= q * 16)%Q) by lra.
  assert (Hlo : 0 <= Qfloor (q * 16)).
  { change 0 with (Qfloor 0). now apply Qfloor_resp_le. }
  assert (Hhi : Qfloor (q * 16) < 16).
  { rewrite Zlt_Qlt. apply Qle_lt_trans with (q * 16)%Q; [apply Qfloor_le|].
    change (inject_Z 16) with 16%Q. lra. }
  split; [|lia].
  unfold to_int32, Qtruncate.
  apply Qle_bool_iff in Hnn. rewrite Hnn.
  unfold wrap32. rewrite Z.mod_small by lia.
  destruct (Z.ltb_spec (Qfloor (q * 16)) (2 ^ 31)); [reflexivity|lia].
Qed.

Lemma nibble_cases (n : Z) :
  0 <= n <= 15 ->
  In n [0; 1; 2; 3; 4; 5; 6; 7; 8; 9; 10; 11; 12; 13; 14; 15].
Proof. intros H. cbn. lia. Qed.

(** For an [x] the callback returns one character. *)
Lemma key_char_x (q : Q) :
  (0 <= q)%Q -> (q < 1)%Q ->
  exists d : ascii, key_char "x" q = String d EmptyString.
Proof.
  intros H0 H1. destruct (random_nibble q H0 H1) as [E Hr].
  unfold key_char. rewrite E.
  pose proof (nibble_cases _ Hr) as Hin. cbn [In] in Hin.
  repeat (destruct Hin as [<-|Hin]; [eexists; vm_compute; reflexivity|]).
  contradiction.
Qed.

(** For the [y] the callback returns one of the characters 8, 9, a, b. *)
Lemma key_char_y (q : Q) :
  (0 <= q)%Q -> (q < 1)%Q ->
  exists d : ascii,
    key_char "y" q = String d EmptyString
    /\ (d = "8" \/ d = "9" \/ d = "a" \/ d = "b")%char.
Proof.
  intros H0 H1. destruct (random_nibble q H0 H1) as [E Hr].
  unfold key_char. rewrite E.
  pose proof (nibble_cases _ Hr) as Hin. cbn [In] in Hin.
  repeat (destruct Hin as [<-|Hin];
          [eexists; split; [vm_compute; reflexivity|tauto]|]).
  contradiction.
Qed.

(** [replace] with this callback keeps the length of the template, keeps
    every character that is neither [x] nor [y] where it is, and puts one
    of 8, 9, a, b where a [y] was. *)
Lemma replace_xy_layout (random : nat -> Q) :
  unit_interval random ->
  forall (tpl : string) (k : nat),
    String.length (replace_xy random k tpl) = String.length tpl
    /\ forall (i : nat) (c : ascii),
         String.get i tpl = Some c ->
         (c <> "x"%char -> c <> "y"%char ->
          String.get i (replace_xy random k tpl) = Some c)
         /\ (c = "y"%char ->
             exists d : ascii,
               String.get i (replace_xy random k tpl) = Some d
               /\ (d = "8" \/ d = "9" \/ d = "a" \/ d = "b")%char).
Proof.
  intros Hrnd tpl. induction tpl as [|a rest IH]; intros k.
  - split; [reflexivity|]. intros i c H. destruct i; discriminate.
  - cbn [replace_xy].
    destruct (Ascii.eqb_spec a "x") as [->|Hx].
    + destruct (key_char_x (random k)) as [d Hd]; try apply Hrnd.
      cbn [orb]. rewrite Hd. cbn [append String.length].
      destruct (IH (S k)) as [Hlen Hget]. split; [now rewrite Hlen|].
      intros [|i] c H; cbn in H |- *.
      * inversion H; subst c. split; [congruence|discriminate].
      * now apply Hget.
    + destruct (Ascii.eqb_spec a "y") as [->|Hy].
      * destruct (key_char_y (random k)) as (d & Hd & Hv); try apply Hrnd.
        cbn [orb]. rewrite Hd. cbn [append String.length].
        destruct (IH (S k)) as [Hlen Hget]. split; [now rewrite Hlen|].
        intros [|i] c H; cbn in H |- *.
        -- inversion H; subst c. split; [congruence|]. intros _. now exists d.
        -- now apply Hget.
      * cbn [orb String.length].
        destruct (IH k) as [Hlen Hget]. split; [now rewrite Hlen|].
        intros [|i] c H; cbn in H |- *.
        -- inversion H; subst c. split; [reflexivity|congruence].
        -- now apply Hget.
Qed.

(** C9. Whatever [Math.random] returns, the key built by the fallback
    branch has 36 characters, hyphens at positions 8, 13, 18 and 23, the
    character 4 at position 14 and one of 8, 9, a, b at position 19. *)
Theorem fallback_key_has_uuid_v4_layout (random : nat -> Q) :
  unit_interval random ->
  let key := defaultGenerateIdempotencyKey None random in
  String.length key = 36%nat
  /\ String.get 8 key = Some "-"%char
  /\ String.get 13 key = Some "-"%char
  /\ String.get 18 key = Some "-"%char
  /\ String.get 23 key = Some "-"%char
  /\ String.get 14 key = Some "4"%char
  /\ exists d : ascii,
       String.get 19 key = Some d
       /\ (d = "8" \/ d = "9" \/ d = "a" \/ d = "b")%char.
Proof.
  intros Hrnd key.
  destruct (replace_xy_layout random Hrnd key_template 0) as [Hlen Hget].
  subst key. unfold defaultGenerateIdempotencyKey.
  split; [exact Hlen|].
  repeat split.
  - apply (Hget 8%nat "-"%char eq_refl); discriminate.
  - apply (Hget 13%nat "-"%char eq_refl); discriminate.
  - apply (Hget 18%nat "-"%char eq_refl); discriminate.
  - apply (Hget 23%nat "-"%char eq_refl); discriminate.
  - apply (Hget 14%nat "4"%char eq_refl); discriminate.
  - apply (Hget 19%nat "y"%char eq_refl). reflexivity.
Qed.

(** A random source that always returns 1/2. *)
Lemma fallback_key_of_constant_half :
  let key := defaultGenerateIdempotencyKey None (fun _ => 1 # 2) in
  key = "88888888-8888-4888-8888-888888888888"%string
  /\ String.length key = 36%nat
  /\ String.get 8 key = Some "-"%char
  /\ String.get 13 key = Some "-"%char
  /\ String.get 18 key = Some "-"%char
  /\ String.get 23 key = Some "-"%char
  /\ String.get 14 key = Some "4"%char
  /\ exists d : ascii,
       String.get 19 key = Some d
       /\ (d = "8" \/ d = "9" \/ d = "a" \/ d = "b")%char.
Proof.
  split; [vm_compute; reflexivity|].
  apply (fallback_key_has_uuid_v4_layout (fun _ => 1 # 2)).
  intros k. split; [discriminate|reflexivity].
Defined.

End KeyProperties.

(** * Further properties of the poller *)

Section RunProperties.

Context {T : Type}.
Implicit Types (s : Session T) (e : AsyncEnvelope T).

Section Loops.

Variable apiCall : nat -> Reply T.
Variables (timeout defaultRetryInterval : Q) (maxAttempts : Z).
Variable progress : bool.
Variable abortSignal : option AbortSignal.
Variable startTime : Q.

#[local] Abbreviation body := (poll_body apiCall timeout defaultRetryInterval
  maxAttempts progress abortSignal startTime).
#[local] Abbreviation loop := (poll_loop apiCall timeout defaultRetryInterval
  maxAttempts progress abortSignal startTime).
#[local] Abbreviation step := (iteration apiCall timeout defaultRetryInterval
  maxAttempts progress abortSignal startTime).
#[local] Abbreviation called := (after_call apiCall defaultRetryInterval
  maxAttempts progress startTime).

(** One pass of the loop, by cases: [H] is the equation of the loop with one
    pass unrolled, under a guard that holds. *)
Ltac one_pass H s c1 s1 Hit :=
  pose proof (poll_body_iteration apiCall timeout defaultRetryInterval
                maxAttempts progress abortSignal startTime s) as Hit;
  destruct (poll_body apiCall timeout defaultRetryInterval maxAttempts
              progress abortSignal startTime s) as [c1 s1];
  cbn [fst snd] in Hit.

(** How a loop can end: with the timeout error, raised because the attempts
    are used up or because the time is; with the cancellation error, the
    signal being aborted; with the rejection of its last call; or with the
    verdict on a terminal envelope, the last one received. *)
Lemma poll_loop_ending (fuel : nat) : forall s (c : Completion T) s',
  loop fuel s = (c, s') ->
  (Z.to_nat (maxAttempts - attempt s) <= fuel)%nat ->
  (c = Rejected (PollingTimeoutError (or_str (sessionJobId s') "unknown")
                   timeout (attempt s'))
   /\ (maxAttempts <= attempt s' \/ (timeout <= now s' - startTime)%Q))
  \/ (c = Rejected AbortError /\ aborted abortSignal (now s') = true)
  \/ (exists n m : string,
         c = Rejected (TransportError n m)
         /\ (0 < calls s')%nat
         /\ settles (apiCall (pred (calls s'))) = inr (n, m))
  \/ (exists (pre : list (AsyncEnvelope T)) e,
         received s' = (pre ++ [e])%list
         /\ is_terminal (status e) = true /\ c = verdict e).
Proof.
  induction fuel as [|fuel IH]; intros s c s' H Hfuel.
  - rewrite poll_loop_exit in H by lia. injection H as <- <-. left.
    split; [reflexivity|]. left. lia.
  - rewrite poll_loop_unroll in H.
    destruct (Z.ltb_spec (attempt s) maxAttempts) as [Hlt|Hge].
    2:{ injection H as <- <-. left. split; [reflexivity|]. now left. }
    one_pass H s c1 s1 Hit.
    inversion Hit as [Hab|Hab Hto|n m Hab Hto Hcall|e Hab Hto Hcall Hterm
                     |e c0 s2 Hab Hto Hcall Hterm Hsl];
      try subst s2; subst c1; try subst s1.
    + injection H as <- <-. right. left. now split.
    + injection H as <- <-. left. split; [reflexivity|]. right.
      cbn. now apply Qle_bool_iff.
    + injection H as <- <-. right. right. left. exists n, m. cbn.
      repeat split; [lia|assumption].
    + right. right. right. exists (received s), e.
      assert (Hres : c = verdict e /\ s' = called e s).
      { destruct (verdict e) as [r| |]; cbn in H; inversion H; auto. }
      destruct Hres as [-> ->]. rewrite after_call_received. auto.
    + destruct (wait_outcome _ _ _ _ _ _ e s c0 s1 Hsl)
        as (_ & _ & Ha & _ & [[-> _]|[-> Habw]]); cbn in H.
      * apply (IH s1); [assumption|]. rewrite Ha. lia.
      * injection H as <- <-. right. left. now split.
Qed.

(** The counters of a loop that starts with as many attempts as calls: at
    the end the attempts are the calls, or one more when the last attempt
    was given up before its call; they never pass the budget. *)
Lemma poll_loop_counters (fuel : nat) : forall s (c : Completion T) s',
  loop fuel s = (c, s') ->
  attempt s = Z.of_nat (calls s) ->
  (attempt s' = Z.of_nat (calls s') \/ attempt s' = Z.of_nat (calls s') + 1)
  /\ attempt s' <= Z.max (attempt s) maxAttempts
  /\ (calls s <= calls s')%nat.
Proof.
  induction fuel as [|fuel IH]; intros s c s' H Hinv.
  - cbn in H. unfold bind, read, throw in H. cbn in H.
    destruct (attempt s <? maxAttempts); injection H as _ <-;
      repeat split; auto; lia.
  - rewrite poll_loop_unroll in H.
    destruct (Z.ltb_spec (attempt s) maxAttempts) as [Hlt|Hge].
    2:{ injection H as _ <-. repeat split; auto; lia. }
    one_pass H s c1 s1 Hit.
    inversion Hit as [Hab|Hab Hto|n m Hab Hto Hcall|e Hab Hto Hcall Hterm
                     |e c0 s2 Hab Hto Hcall Hterm Hsl];
      try subst s2; subst c1; try subst s1.
    + injection H as _ <-. repeat split; auto; lia.
    + injection H as _ <-. cbn. repeat split; try lia.
    + injection H as _ <-. cbn. repeat split; try lia.
    + assert (Hs : s' = called e s).
      { destruct (verdict e); cbn in H; now inversion H. }
      subst s'. rewrite after_call_attempt, after_call_calls.
      repeat split; try lia.
    + destruct (wait_outcome _ _ _ _ _ _ e s c0 s1 Hsl)
        as (Hc & _ & Ha & _ & [[-> _]|[-> _]]); cbn in H.
      * destruct (IH s1 c s' H) as (H1 & H2 & H3); [rewrite Ha, Hc; lia|].
        repeat split; try lia.
      * injection H as _ <-. rewrite Ha, Hc. repeat split; try lia.
Qed.

(** *** What the delay leaves alone *)

Lemma sleepWithAbort_logs (ms : Q) s :
  received (snd (sleepWithAbort ms abortSignal s)) = received s
  /\ reports (snd (sleepWithAbort ms abortSignal s)) = reports s
  /\ calls (snd (sleepWithAbort ms abortSignal s)) = calls s
  /\ (waits (snd (sleepWithAbort ms abortSignal s)) = waits s
      \/ waits (snd (sleepWithAbort ms abortSignal s)) = (waits s ++ [ms])%list).
Proof.
  unfold sleepWithAbort.
  destruct (aborted abortSignal (now s)); [cbn; auto|].
  destruct (abort_event abortSignal) as [a|]; [|cbn; auto].
  destruct (Qle_bool (now s + timer_delay ms) a); cbn; auto.
Qed.

Lemma after_call_reports e s :
  reports (called e s) =
  if progress
  then (reports s ++
        [{| p_jobId := jobId e; p_status := status e;
            p_attempt := attempt s + 1; p_maxAttempts := maxAttempts;
            p_elapsedMs := (now s - startTime)%Q;
            p_nextRetryMs := next_retry defaultRetryInterval e |}])%list
  else reports s.
Proof. unfold after_call. now destruct progress. Qed.

(** *** The progress reports *)

Lemma reports_follow_snoc (ps : list PollingProgress)
    (es : list (AsyncEnvelope T)) e (elapsed : Q) :
  reports_follow defaultRetryInterval maxAttempts ps es ->
  reports_follow defaultRetryInterval maxAttempts
    (ps ++ [{| p_jobId := jobId e; p_status := status e;
               p_attempt := Z.of_nat (List.length es) + 1;
               p_maxAttempts := maxAttempts; p_elapsedMs := elapsed;
               p_nextRetryMs := next_retry defaultRetryInterval e |}])
    (es ++ [e]).
Proof.
  intros (Hj & Hs & Ha & Hm & Hn). unfold reports_follow.
  rewrite !map_app, Hj, Hs, Hm, Hn, Ha, length_app. cbn [map List.length].
  repeat split.
  rewrite Nat.add_1_r, seq_S, map_app. cbn.
  do 2 f_equal. lia.
Qed.

(** With a callback, the loop reports every envelope it receives. *)
Lemma poll_loop_reports (fuel : nat) : forall s (c : Completion T) s',
  progress = true ->
  loop fuel s = (c, s') ->
  attempt s = Z.of_nat (List.length (received s)) ->
  reports_follow defaultRetryInterval maxAttempts (reports s) (received s) ->
  reports_follow defaultRetryInterval maxAttempts (reports s') (received s').
Proof.
  intros s c s' Hp. revert s c s'.
  assert (Hcalled : forall e s,
             attempt s = Z.of_nat (List.length (received s)) ->
             reports_follow defaultRetryInterval maxAttempts
               (reports s) (received s) ->
             reports_follow defaultRetryInterval maxAttempts
               (reports (called e s)) (received (called e s))).
  { intros e s Ha Hf. rewrite after_call_reports, after_call_received, Hp, Ha.
    now apply reports_follow_snoc. }
  induction fuel as [|fuel IH]; intros s c s' H Ha Hf.
  - cbn in H. unfold bind, read, throw in H. cbn in H.
    destruct (attempt s <? maxAttempts); injection H as _ <-; assumption.
  - rewrite poll_loop_unroll in H.
    destruct (Z.ltb_spec (attempt s) maxAttempts) as [Hlt|Hge].
    2:{ injection H as _ <-. assumption. }
    one_pass H s c1 s1 Hit.
    inversion Hit as [Hab|Hab Hto|n m Hab Hto Hcall|e Hab Hto Hcall Hterm
                     |e c0 s2 Hab Hto Hcall Hterm Hsl];
      try subst s2; subst c1; try subst s1.
    + injection H as _ <-. assumption.
    + injection H as _ <-. assumption.
    + injection H as _ <-. assumption.
    + assert (Hs : s' = called e s).
      { destruct (verdict e); cbn in H; now inversion H. }
      subst s'. now apply Hcalled.
    + destruct (sleepWithAbort_logs (retryAfterMs e defaultRetryInterval)
                  (called e s)) as (Hr & Hrep & _ & _).
      rewrite Hsl in Hr, Hrep. cbn [snd] in Hr, Hrep.
      assert (Hf1 : reports_follow defaultRetryInterval maxAttempts
                      (reports s1) (received s1)).
      { rewrite Hr, Hrep. now apply Hcalled. }
      destruct (wait_outcome _ _ _ _ _ _ e s c0 s1 Hsl)
        as (_ & Hr1 & Ha1 & _ & [[-> _]|[-> _]]); cbn in H.
      * apply (IH s1 c s' H); [|assumption].
        rewrite Ha1, Hr1, Ha, length_app. cbn. lia.
      * injection H as _ <-. assumption.
Qed.

(** Without a callback nothing is reported. *)
Lemma poll_loop_silent (fuel : nat) : forall s (c : Completion T) s',
  progress = false ->
  loop fuel s = (c, s') ->
  reports s' = reports s.
Proof.
  intros s c s' Hp. revert s c s'.
  induction fuel as [|fuel IH]; intros s c s' H.
  - cbn in H. unfold bind, read, throw in H. cbn in H.
    destruct (attempt s <? maxAttempts); injection H as _ <-; reflexivity.
  - rewrite poll_loop_unroll in H.
    destruct (Z.ltb_spec (attempt s) maxAttempts) as [Hlt|Hge].
    2:{ injection H as _ <-. reflexivity. }
    one_pass H s c1 s1 Hit.
    inversion Hit as [Hab|Hab Hto|n m Hab Hto Hcall|e Hab Hto Hcall Hterm
                     |e c0 s2 Hab Hto Hcall Hterm Hsl];
      try subst s2; subst c1; try subst s1.
    + injection H as _ <-. reflexivity.
    + injection H as _ <-. reflexivity.
    + injection H as _ <-. reflexivity.
    + assert (Hs : s' = called e s).
      { destruct (verdict e); cbn in H; now inversion H. }
      subst s'. now rewrite after_call_reports, Hp.
    + destruct (sleepWithAbort_logs (retryAfterMs e defaultRetryInterval)
                  (called e s)) as (_ & Hrep & _ & _).
      rewrite Hsl in Hrep. cbn [snd] in Hrep.
      rewrite after_call_reports, Hp in Hrep.
      destruct (wait_outcome _ _ _ _ _ _ e s c0 s1 Hsl)
        as (_ & _ & _ & _ & [[-> _]|[-> _]]); cbn in H.
      * rewrite (IH s1 c s' H). exact Hrep.
      * injection H as _ <-. exact Hrep.
Qed.

(** *** The timers *)

(** The timers of a loop are those of the envelopes received, in order;
    only the last envelope may have none. *)
Lemma poll_loop_waits (fuel : nat) : forall s (c : Completion T) s',
  loop fuel s = (c, s') ->
  waits s = map (fun e => retryAfterMs e defaultRetryInterval) (received s) ->
  waits s' = map (fun e => retryAfterMs e defaultRetryInterval) (received s')
  \/ waits s' = map (fun e => retryAfterMs e defaultRetryInterval)
                  (removelast (received s')).
Proof.
  induction fuel as [|fuel IH]; intros s c s' H Hw.
  - cbn in H. unfold bind, read, throw in H. cbn in H.
    destruct (attempt s <? maxAttempts); injection H as _ <-; now left.
  - rewrite poll_loop_unroll in H.
    destruct (Z.ltb_spec (attempt s) maxAttempts) as [Hlt|Hge].
    2:{ injection H as _ <-. now left. }
    one_pass H s c1 s1 Hit.
    inversion Hit as [Hab|Hab Hto|n m Hab Hto Hcall|e Hab Hto Hcall Hterm
                     |e c0 s2 Hab Hto Hcall Hterm Hsl];
      try subst s2; subst c1; try subst s1.
    + injection H as _ <-. now left.
    + injection H as _ <-. now left.
    + injection H as _ <-. now left.
    + assert (Hs : s' = called e s).
      { destruct (verdict e); cbn in H; now inversion H. }
      subst s'. right.
      now rewrite after_call_waits, after_call_received, removelast_last.
    + destruct (sleepWithAbort_logs (retryAfterMs e defaultRetryInterval)
                  (called e s)) as (Hr & _ & _ & Hws).
      rewrite Hsl in Hr, Hws. cbn [snd] in Hr, Hws.
      rewrite after_call_received in Hr. rewrite after_call_waits in Hws.
      destruct (wait_outcome _ _ _ _ _ _ e s c0 s1 Hsl)
        as (_ & _ & _ & _ & [[-> Hw1]|[-> _]]); cbn in H.
      * apply (IH s1 c s' H).
        rewrite Hw1, Hr, map_app, Hw. reflexivity.
      * injection H as _ <-. rewrite Hr.
        destruct Hws as [Hws|Hws]; rewrite Hws.
        -- right. now rewrite removelast_last.
        -- left. now rewrite map_app, Hw.
Qed.

(** *** A signal that never aborts *)

Lemma never_aborted (t : Q) :
  abort_event abortSignal = None -> aborted abortSignal t = false.
Proof.
  unfold abort_event, aborted. destruct abortSignal as [sg|]; [|reflexivity].
  now intros ->.
Qed.

Lemma sleepWithAbort_undisturbed (ms : Q) s :
  abort_event abortSignal = None ->
  sleepWithAbort ms abortSignal s =
  (Resolved tt, set_now (now s + timer_delay ms)%Q (log_wait ms s)).
Proof.
  intros Hev. unfold sleepWithAbort.
  now rewrite (never_aborted (now s) Hev), Hev.
Qed.

(** *** Undisturbed passes *)

(** [n] calls that each return an envelope leaving the job running, with
    time and attempts to spare and no cancellation, take the loop through
    [n] passes; the next attempt starts at [attempt_time]. *)
Lemma poll_loop_advance (n : nat) : forall (fuel : nat) s,
  abort_event abortSignal = None ->
  attempt s = Z.of_nat (calls s) ->
  now s = attempt_time apiCall defaultRetryInterval startTime (calls s) ->
  sessionJobId s = known_job_id apiCall (calls s) ->
  (forall j : nat, (calls s <= j < calls s + n)%nat -> keeps_running apiCall j) ->
  (forall j : nat, (calls s <= j < calls s + n)%nat ->
     (attempt_time apiCall defaultRetryInterval startTime j - startTime
      < timeout)%Q) ->
  Z.of_nat (calls s + n) <= maxAttempts ->
  exists s_n,
    loop (n + fuel) s = loop fuel s_n
    /\ calls s_n = (calls s + n)%nat
    /\ attempt s_n = Z.of_nat (calls s_n)
    /\ now s_n = attempt_time apiCall defaultRetryInterval startTime (calls s_n)
    /\ sessionJobId s_n = known_job_id apiCall (calls s_n).
Proof.
  induction n as [|n IH]; intros fuel s Hev Ha Hn Hj Hrun Htime Hmax.
  - exists s. rewrite Nat.add_0_r. auto.
  - destruct (Hrun (calls s)) as (e & Hcall & Hterm); [lia|].
    apply is_terminal_false in Hterm. destruct Hterm as [Hc Hf].
    assert (Hto : (now s - startTime < timeout)%Q).
    { rewrite Hn. apply Htime. lia. }
    pose proof (poll_body_running apiCall timeout defaultRetryInterval
                  maxAttempts progress abortSignal startTime e s
                  (never_aborted (now s) Hev) Hto Hcall Hc Hf) as Hbody.
    rewrite sleepWithAbort_undisturbed in Hbody by assumption.
    cbn [fst snd continuing] in Hbody.
    set (s1 := set_now
                 (now (called e s)
                  + timer_delay (retryAfterMs e defaultRetryInterval))%Q
                 (log_wait (retryAfterMs e defaultRetryInterval) (called e s)))
      in Hbody.
    assert (Hc1 : calls s1 = S (calls s)).
    { subst s1. cbn. apply after_call_calls. }
    destruct (IH fuel s1) as (s_n & Hloop & Hcn & Han & Hnn & Hjn).
    + assumption.
    + rewrite Hc1. subst s1. cbn. rewrite after_call_attempt. lia.
    + rewrite Hc1. subst s1. cbn. rewrite after_call_now, Hn.
      unfold pause_after. now rewrite Hcall.
    + rewrite Hc1. subst s1. cbn. rewrite after_call_jobId. now rewrite Hcall.
    + intros j Hjr. apply Hrun. lia.
    + intros j Hjr. apply Htime. lia.
    + rewrite Hc1. now replace (S (calls s) + n)%nat with (calls s + S n)%nat by lia.
    + exists s_n. repeat split; auto; [|lia].
      cbn [Nat.add]. rewrite poll_loop_unroll, Hbody.
      destruct (Z.ltb_spec (attempt s) maxAttempts); [exact Hloop|lia].
Qed.

(** *** Replies the loop does not look at *)

Section OtherScript.

Variable apiCall' : nat -> Reply T.

Lemma poll_body_same_reply s :
  apiCall (calls s) = apiCall' (calls s) ->
  body s =
  poll_body apiCall' timeout defaultRetryInterval maxAttempts progress
    abortSignal startTime s.
Proof.
  intros H.
  unfold poll_body, poll_attempt, signal_aborted, invoke, bind, read, modify,
    Date_now.
  cbn. destruct (aborted abortSignal (now s)); [reflexivity|]. cbn.
  destruct (Qle_bool timeout (now s - startTime)); [reflexivity|]. cbn.
  now rewrite H.
Qed.

(** The loop reads the script at the indices of its own calls only, and
    makes at most [fuel] of them. *)
Lemma poll_loop_same_replies (fuel : nat) : forall s,
  (forall k : nat, (calls s <= k < calls s + fuel)%nat -> apiCall k = apiCall' k) ->
  loop fuel s =
  poll_loop apiCall' timeout defaultRetryInterval maxAttempts progress
    abortSignal startTime fuel s.
Proof.
  induction fuel as [|fuel IH]; intros s Hsame.
  - reflexivity.
  - rewrite !poll_loop_unroll.
    destruct (attempt s <? maxAttempts); [|reflexivity].
    rewrite <- (poll_body_same_reply s) by (apply Hsame; lia).
    pose proof (poll_body_iteration apiCall timeout defaultRetryInterval
                  maxAttempts progress abortSignal startTime s) as Hit.
    destruct (body s) as [[[x|]| |] s1]; try reflexivity.
    cbn [fst snd] in Hit.
    inversion Hit as [Hab|Hab Hto|n m Hab Hto Hcall|e Hab Hto Hcall Hterm
                     |e c0 s2 Hab Hto Hcall Hterm Hsl Hc0 Hs2].
    + destruct (verdict e) as [r| |]; discriminate.
    + subst s2.
      destruct (wait_outcome _ _ _ _ _ _ e s c0 s1 Hsl) as (Hc & _).
      apply IH. intros k Hk. apply Hsame. lia.
Qed.

End OtherScript.

(** *** The job id and the calls *)

(** [jobId] is the job id of the last envelope received. *)
Lemma poll_loop_jobId (fuel : nat) : forall s (c : Completion T) s',
  loop fuel s = (c, s') ->
  sessionJobId s = last (map jobId (received s)) ""%string ->
  sessionJobId s' = last (map jobId (received s')) ""%string.
Proof.
  induction fuel as [|fuel IH]; intros s c s' H Hj.
  - cbn in H. unfold bind, read, throw in H. cbn in H.
    destruct (attempt s <? maxAttempts); injection H as _ <-; assumption.
  - rewrite poll_loop_unroll in H.
    destruct (Z.ltb_spec (attempt s) maxAttempts) as [Hlt|Hge].
    2:{ injection H as _ <-. assumption. }
    one_pass H s c1 s1 Hit.
    inversion Hit as [Hab|Hab Hto|n m Hab Hto Hcall|e Hab Hto Hcall Hterm
                     |e c0 s2 Hab Hto Hcall Hterm Hsl];
      try subst s2; subst c1; try subst s1.
    + injection H as _ <-. assumption.
    + injection H as _ <-. assumption.
    + injection H as _ <-. assumption.
    + assert (Hs : s' = called e s).
      { destruct (verdict e); cbn in H; now inversion H. }
      subst s'. rewrite after_call_jobId, after_call_received, map_app.
      cbn [map]. now rewrite last_last.
    + destruct (wait_outcome _ _ _ _ _ _ e s c0 s1 Hsl)
        as (_ & Hr & _ & Hj1 & Hcase).
      assert (Hinv : sessionJobId s1 = last (map jobId (received s1)) ""%string).
      { rewrite Hj1, Hr, map_app. cbn [map]. now rewrite last_last. }
      destruct Hcase as [[-> _]|[-> _]]; cbn in H.
      * now apply (IH s1 c s' H).
      * injection H as _ <-. assumption.
Qed.

(** Every call of a loop returned an envelope, except that the last one
    may have rejected; then the loop rejects with what it rejected with. *)
Lemma poll_loop_calls (fuel : nat) : forall s (c : Completion T) s',
  loop fuel s = (c, s') ->
  calls s = List.length (received s) ->
  calls s' = List.length (received s')
  \/ (calls s' = S (List.length (received s'))
      /\ exists n m : string,
           settles (apiCall (List.length (received s'))) = inr (n, m)
           /\ c = Rejected (TransportError n m)).
Proof.
  induction fuel as [|fuel IH]; intros s c s' H Hinv.
  - cbn in H. unfold bind, read, throw in H. cbn in H.
    destruct (attempt s <? maxAttempts); injection H as _ <-; now left.
  - rewrite poll_loop_unroll in H.
    destruct (Z.ltb_spec (attempt s) maxAttempts) as [Hlt|Hge].
    2:{ injection H as _ <-. now left. }
    one_pass H s c1 s1 Hit.
    inversion Hit as [Hab|Hab Hto|n m Hab Hto Hcall|e Hab Hto Hcall Hterm
                     |e c0 s2 Hab Hto Hcall Hterm Hsl];
      try subst s2; subst c1; try subst s1.
    + injection H as _ <-. now left.
    + injection H as _ <-. now left.
    + injection H as <- <-. right. cbn. split; [now rewrite Hinv|].
      exists n, m. now rewrite <- Hinv.
    + assert (Hs : s' = called e s).
      { destruct (verdict e); cbn in H; now inversion H. }
      subst s'. left.
      rewrite after_call_calls, after_call_received, length_app, Hinv. cbn. lia.
    + destruct (wait_outcome _ _ _ _ _ _ e s c0 s1 Hsl)
        as (Hc & Hr & _ & _ & Hcase).
      assert (Hinv1 : calls s1 = List.length (received s1)).
      { rewrite Hc, Hr, length_app, Hinv. cbn. lia. }
      destruct Hcase as [[-> _]|[-> _]]; cbn in H.
      * now apply (IH s1 c s' H).
      * injection H as _ <-. now left.
Qed.

End Loops.

(** ** What a run is bounded by *)

(** X1. A run settles, and it invokes the operation at most
    [maxPollingAttempts] times (not at all when that is not positive); the
    attempts counted are the calls made, or one more when the last attempt
    was given up before its call. *)
Theorem calls_stay_within_attempt_budget (apiCall : nat -> Reply T)
    (options : AsyncClientOptions) (t0 : Q) :
  let out := run apiCall options t0 in
  let budget := Z.max 0 (with_default (maxPollingAttempts options) 90) in
  fst out <> Unfinished
  /\ Z.of_nat (calls (snd out)) <= budget
  /\ attempt (snd out) <= budget
  /\ (attempt (snd out) = Z.of_nat (calls (snd out))
      \/ attempt (snd out) = Z.of_nat (calls (snd out)) + 1).
Proof.
  intros out budget. split; [apply pollUntilComplete_settles|].
  subst out budget. rewrite run_loop.
  destruct (poll_loop apiCall _ _ _ _ _ _ _ (fresh_session t0)) as [c s'] eqn:E.
  destruct (poll_loop_counters _ _ _ _ _ _ _ _ _ _ _ E eq_refl) as (H1 & H2 & _).
  cbn [fst snd attempt fresh_session] in *. repeat split; try assumption.
  destruct H1; lia.
Qed.

(** ** What an outcome tells *)

(** X2. A run returns a result only if the last envelope it received has
    status [completed] and carries that result; all envelopes before it left
    the job running, and every call returned an envelope. *)
Theorem resolved_only_with_completed_envelope (apiCall : nat -> Reply T)
    (options : AsyncClientOptions) (t0 : Q) (r : T) s' :
  run apiCall options t0 = (Resolved r, s') ->
  exists (pre : list (AsyncEnvelope T)) e,
    received s' = (pre ++ [e])%list
    /\ status e = "completed"%string /\ result e = Some r
    /\ Forall nonterminal pre
    /\ calls s' = List.length (received s').
Proof.
  intros Hrun. rewrite run_loop in Hrun.
  destruct (poll_loop_trace _ _ _ _ _ _ _ _ _ _ _ Hrun (Forall_nil _))
    as [Hall|(pre & e & E & Hpre & Ht & Hv & Hcalls)].
  - exfalso.
    destruct (poll_loop_ending _ _ _ _ _ _ _ _ _ _ _ Hrun)
      as [[Hc _]|[[Hc _]|[(n & m & Hc & _)|(pre & e & E & Ht & _)]]];
      try discriminate.
    + cbn. lia.
    + rewrite E in Hall. apply Forall_app in Hall. destruct Hall as [_ Hall].
      inversion Hall as [|? ? He _]. unfold nonterminal in He. congruence.
  - exists pre, e. unfold verdict in Hv.
    destruct (String.eqb_spec (status e) "completed") as [Hst|Hst];
      [|discriminate].
    destruct (result e) as [r'|]; [|discriminate].
    injection Hv as ->. repeat split; auto.
Qed.

(** X3. A run raises a [JobFailedError] only if the last envelope it
    received has status [failed]; the error carries the job id of that
    envelope and its message, or the placeholder. *)
Theorem JobFailedError_only_with_failed_envelope (apiCall : nat -> Reply T)
    (options : AsyncClientOptions) (t0 : Q) (j m : string) s' :
  run apiCall options t0 = (Rejected (JobFailedError j m), s') ->
  exists (pre : list (AsyncEnvelope T)) e,
    received s' = (pre ++ [e])%list
    /\ status e = "failed"%string
    /\ j = jobId e
    /\ m = or_string (error e) "Unknown error"
    /\ Forall nonterminal pre.
Proof.
  intros Hrun. rewrite run_loop in Hrun.
  destruct (poll_loop_trace _ _ _ _ _ _ _ _ _ _ _ Hrun (Forall_nil _))
    as [Hall|(pre & e & E & Hpre & Ht & Hv & Hcalls)].
  - exfalso.
    destruct (poll_loop_ending _ _ _ _ _ _ _ _ _ _ _ Hrun)
      as [[Hc _]|[[Hc _]|[(n & m' & Hc & _)|(pre & e & E & Ht & _)]]];
      try discriminate.
    + cbn. lia.
    + rewrite E in Hall. apply Forall_app in Hall. destruct Hall as [_ Hall].
      inversion Hall as [|? ? He _]. unfold nonterminal in He. congruence.
  - exists pre, e. unfold verdict in Hv.
    destruct (String.eqb_spec (status e) "completed") as [Hst|Hst].
    + destruct (result e); discriminate.
    + injection Hv as -> ->. repeat split; auto.
      apply is_terminal_cases in Ht. now destruct Ht.
Qed.

(** X4. A run raises the cancellation error only if a signal is configured
    and it is aborted by the time the run ends. *)
Theorem AbortError_only_when_signal_aborted (apiCall : nat -> Reply T)
    (options : AsyncClientOptions) (t0 : Q) s' :
  run apiCall options t0 = (Rejected AbortError, s') ->
  exists (sg : AbortSignal) (a : Q),
    signal options = Some sg /\ abortedAt sg = Some a /\ (a <= now s')%Q.
Proof.
  intros Hrun. rewrite run_loop in Hrun.
  assert (Hab : aborted (signal options) (now s') = true).
  { destruct (poll_loop_ending _ _ _ _ _ _ _ _ _ _ _ Hrun)
      as [[Hc _]|[[_ Hab]|[(n & m & Hc & _)|(pre & e & E & Ht & Hv)]]];
      try discriminate; try assumption.
    - cbn. lia.
    - exfalso. unfold verdict in Hv.
      destruct (String.eqb (status e) "completed");
        [destruct (result e)|]; discriminate. }
  unfold aborted in Hab.
  destruct (signal options) as [sg|]; [|discriminate].
  destruct (abortedAt sg) as [a|] eqn:Ha; [|discriminate].
  exists sg, a. repeat split; auto. now apply Qle_bool_iff.
Qed.

(** X5. A run raises a [PollingTimeoutError] only if no envelope it received
    was terminal and either the attempt counter has reached
    [maxPollingAttempts] or the time elapsed has reached [timeoutMs]; the
    error carries the configured timeout, the attempt counter, and the job
    id of the last envelope received, ['unknown'] when there is none or that
    id is empty. *)
Theorem PollingTimeoutError_cause (apiCall : nat -> Reply T)
    (options : AsyncClientOptions) (t0 : Q) (j : string) (t : Q) (n : Z) s' :
  run apiCall options t0 = (Rejected (PollingTimeoutError j t n), s') ->
  t = with_default (timeoutMs options) 900000%Q
  /\ n = attempt s'
  /\ j = or_str (last (map jobId (received s')) ""%string) "unknown"
  /\ Forall nonterminal (received s')
  /\ (with_default (maxPollingAttempts options) 90 <= n
      \/ (t <= now s' - t0)%Q).
Proof.
  intros Hrun. rewrite run_loop in Hrun.
  pose proof (poll_loop_jobId _ _ _ _ _ _ _ _ _ _ _ Hrun eq_refl) as Hj.
  destruct (poll_loop_ending _ _ _ _ _ _ _ _ _ _ _ Hrun)
    as [[Hc Hcause]|[[Hc _]|[(n' & m & Hc & _)|(pre & e & E & Ht & Hv)]]];
    try discriminate.
  - cbn. lia.
  - injection Hc as -> -> ->. rewrite Hj. repeat split; auto.
    destruct (poll_loop_trace _ _ _ _ _ _ _ _ _ _ _ Hrun (Forall_nil _))
      as [Hall|(pre & e & E & Hpre & Ht & Hv & _)]; [assumption|].
    exfalso. unfold verdict in Hv.
    destruct (String.eqb (status e) "completed");
      [destruct (result e)|]; discriminate.
  - exfalso. unfold verdict in Hv.
    destruct (String.eqb (status e) "completed");
      [destruct (result e)|]; discriminate.
Qed.

(** X6. Every call of a run returned an envelope, except that the last
    call may have rejected: then the run rejects with exactly what that
    call rejected with, and the operation is not invoked again. *)
Theorem rejected_call_ends_the_run (apiCall : nat -> Reply T)
    (options : AsyncClientOptions) (t0 : Q) :
  let out := run apiCall options t0 in
  calls (snd out) = List.length (received (snd out))
  \/ (calls (snd out) = S (List.length (received (snd out)))
      /\ exists n m : string,
           settles (apiCall (List.length (received (snd out)))) = inr (n, m)
           /\ fst out = Rejected (TransportError n m)).
Proof.
  intros out. subst out. rewrite run_loop.
  destruct (poll_loop apiCall _ _ _ _ _ _ _ (fresh_session t0)) as [c s'] eqn:E.
  exact (poll_loop_calls _ _ _ _ _ _ _ _ _ _ _ E eq_refl).
Qed.

(** ** The logs of a run *)

(** X7. With a progress callback, it is handed one report per envelope
    received, in order, each with the job id and status of its envelope, the
    number of the attempt (counted from 1), the configured maximum and the
    next retry delay, which is undefined exactly for a terminal status.
    Without a callback nothing is reported. *)
Theorem progress_reports_follow_envelopes (apiCall : nat -> Reply T)
    (options : AsyncClientOptions) (t0 : Q) :
  let s' := snd (run apiCall options t0) in
  (onPollingProgress options = true ->
   reports_follow (with_default (defaultRetryIntervalMs options) 10000%Q)
     (with_default (maxPollingAttempts options) 90) (reports s') (received s'))
  /\ (onPollingProgress options = false -> reports s' = []).
Proof.
  intros s'. subst s'. rewrite run_loop.
  destruct (poll_loop apiCall _ _ _ _ _ _ _ (fresh_session t0)) as [c s'] eqn:E.
  cbn [snd]. split; intros Hp.
  - apply (poll_loop_reports _ _ _ _ _ _ _ _ _ _ _ Hp E eq_refl).
    repeat split.
  - exact (poll_loop_silent _ _ _ _ _ _ _ _ _ _ _ Hp E).
Qed.

(** X8. The timers a run starts are those of the envelopes it received, in
    order and with the retry delay of each; only the last envelope may have
    none (it is terminal, or the signal is aborted when its call returns). *)
Theorem timers_follow_envelopes (apiCall : nat -> Reply T)
    (options : AsyncClientOptions) (t0 : Q) :
  let s' := snd (run apiCall options t0) in
  let delay := fun e : AsyncEnvelope T =>
    retryAfterMs e (with_default (defaultRetryIntervalMs options) 10000%Q) in
  waits s' = map delay (received s')
  \/ waits s' = map delay (removelast (received s')).
Proof.
  intros s' delay. subst s' delay. rewrite run_loop.
  destruct (poll_loop apiCall _ _ _ _ _ _ _ (fresh_session t0)) as [c s'] eqn:E.
  exact (poll_loop_waits _ _ _ _ _ _ _ _ _ _ _ E eq_refl).
Qed.

(** X9. A run depends on the first [maxPollingAttempts] replies of the
    operation only: two operations that agree on them give the same run. *)
Theorem replies_beyond_budget_are_ignored (apiCall apiCall' : nat -> Reply T)
    (options : AsyncClientOptions) (t0 : Q) :
  (forall k : nat,
      Z.of_nat k < with_default (maxPollingAttempts options) 90 ->
      apiCall k = apiCall' k) ->
  run apiCall options t0 = run apiCall' options t0.
Proof.
  intros Hsame. rewrite !run_loop.
  apply poll_loop_same_replies. intros k Hk. apply Hsame.
  cbn in Hk. lia.
Qed.

End RunProperties.

(** ** Runs that nothing cuts short *)

Section UndisturbedRuns.

Context {T : Type}.
Implicit Types (s : Session T) (e : AsyncEnvelope T).

Variable apiCall : nat -> Reply T.
Variable options : AsyncClientOptions.
Variable t0 : Q.

#[local] Abbreviation timeout := (with_default (timeoutMs options) 900000%Q).
#[local] Abbreviation interval :=
  (with_default (defaultRetryIntervalMs options) 10000%Q).
#[local] Abbreviation budget := (with_default (maxPollingAttempts options) 90).
#[local] Abbreviation starts := (attempt_time apiCall interval t0).

(** The passes of a run before its (n+1)-th attempt. *)
Lemma run_advance (n fuel : nat) :
  abort_event (signal options) = None ->
  (forall j : nat, (j < n)%nat -> keeps_running apiCall j) ->
  (forall j : nat, (j < n)%nat -> (starts j - t0 < timeout)%Q) ->
  Z.of_nat n <= budget ->
  exists s_n,
    poll_loop apiCall timeout interval budget (onPollingProgress options)
      (signal options) t0 (n + fuel) (fresh_session t0)
    = poll_loop apiCall timeout interval budget (onPollingProgress options)
        (signal options) t0 fuel s_n
    /\ calls s_n = n
    /\ attempt s_n = Z.of_nat n
    /\ now s_n = starts n
    /\ sessionJobId s_n = known_job_id apiCall n.
Proof.
  intros Hev Hrun Htime Hn.
  destruct (poll_loop_advance apiCall timeout interval budget
              (onPollingProgress options) (signal options) t0 n fuel
              (fresh_session t0))
    as (s_n & Hloop & Hc & Ha & Hnow & Hj); try reflexivity; try assumption.
  - intros j Hj. apply Hrun. cbn in Hj. lia.
  - intros j Hj. apply Htime. cbn in Hj. lia.
  - cbn in Hc. subst n. exists s_n. auto.
Qed.

(** The first terminal envelope, when it arrives within both budgets. *)
Lemma terminal_reply_within_budget (n : nat) e :
  abort_event (signal options) = None ->
  (forall j : nat, (j < n)%nat -> keeps_running apiCall j) ->
  settles (apiCall n) = inl e ->
  is_terminal (status e) = true ->
  Z.of_nat n < budget ->
  (forall j : nat, (j <= n)%nat -> (starts j - t0 < timeout)%Q) ->
  exists s',
    run apiCall options t0 = (verdict e, s')
    /\ calls s' = S n
    /\ now s' = (starts n + latency (apiCall n))%Q.
Proof.
  intros Hev Hrun Hcall Hterm Hn Htime.
  rewrite run_loop.
  replace (Z.to_nat budget) with (n + S (Z.to_nat budget - S n))%nat by lia.
  destruct (run_advance n (S (Z.to_nat budget - S n)) Hev Hrun)
    as (s_n & Hloop & Hc & Ha & Hnow & Hj).
  { intros j Hj. apply Htime. lia. }
  { lia. }
  rewrite Hloop, poll_loop_unroll.
  destruct (Z.ltb_spec (attempt s_n) budget) as [_|Hge]; [|lia].
  rewrite (poll_body_received _ _ _ _ _ _ _ e s_n).
  - rewrite Hterm.
    exists (after_call apiCall interval budget (onPollingProgress options) t0
              e s_n).
    rewrite after_call_calls, after_call_now, Hc, Hnow.
    repeat split.
    assert (Hv : (if String.eqb (status e) "completed"
                  then returning (verdict e)
                  else if String.eqb (status e) "failed"
                  then returning (verdict e)
                  else continuing
                         (fst (sleepWithAbort (retryAfterMs e interval)
                                 (signal options)
                                 (after_call apiCall interval budget
                                    (onPollingProgress options) t0 e s_n))))
                 = returning (verdict e)).
    { unfold is_terminal in Hterm.
      destruct (String.eqb (status e) "completed"); [reflexivity|].
      cbn in Hterm. now rewrite Hterm. }
    rewrite Hv. now destruct (verdict e).
  - now apply never_aborted.
  - apply Qle_bool_false. rewrite Hnow. apply Htime. lia.
  - now rewrite Hc.
Qed.

(** X10. If the first [n] calls return envelopes that leave the job
    running and the next one returns [completed] with a result, all within
    the attempt budget and the time budget and without cancellation, the
    run returns that result after exactly [n + 1] calls, at the instant the
    last call returns. *)
Theorem completed_within_budget_is_returned (n : nat) e (r : T) :
  abort_event (signal options) = None ->
  (forall j : nat, (j < n)%nat -> keeps_running apiCall j) ->
  settles (apiCall n) = inl e ->
  status e = "completed"%string ->
  result e = Some r ->
  Z.of_nat n < budget ->
  (forall j : nat, (j <= n)%nat -> (starts j - t0 < timeout)%Q) ->
  exists s',
    run apiCall options t0 = (Resolved r, s')
    /\ calls s' = S n
    /\ now s' = (starts n + latency (apiCall n))%Q.
Proof.
  intros Hev Hrun Hcall Hst Hres Hn Htime.
  destruct (terminal_reply_within_budget n e Hev Hrun Hcall) as (s' & H & Hc);
    try assumption.
  - apply is_terminal_cases. now left.
  - exists s'. split; [|exact Hc].
    rewrite H. unfold verdict. now rewrite Hst, Hres.
Qed.

(** X11. Likewise, if the envelope after [n] running ones has status
    [failed], the run raises the [JobFailedError] of that envelope after
    exactly [n + 1] calls. *)
Theorem failed_within_budget_is_raised (n : nat) e :
  abort_event (signal options) = None ->
  (forall j : nat, (j < n)%nat -> keeps_running apiCall j) ->
  settles (apiCall n) = inl e ->
  status e = "failed"%string ->
  Z.of_nat n < budget ->
  (forall j : nat, (j <= n)%nat -> (starts j - t0 < timeout)%Q) ->
  exists s',
    run apiCall options t0
    = (Rejected (JobFailedError (jobId e) (or_string (error e) "Unknown error")),
       s')
    /\ calls s' = S n
    /\ now s' = (starts n + latency (apiCall n))%Q.
Proof.
  intros Hev Hrun Hcall Hst Hn Htime.
  destruct (terminal_reply_within_budget n e Hev Hrun Hcall) as (s' & H & Hc);
    try assumption.
  - apply is_terminal_cases. now right.
  - exists s'. split; [|exact Hc].
    rewrite H. unfold verdict. now rewrite Hst.
Qed.

(** X12. If the job is still running after [maxPollingAttempts] calls, each
    started within the time budget, and nothing is cancelled, the run has
    made exactly [maxPollingAttempts] calls, has waited after each, and
    raises a [PollingTimeoutError] with that many attempts and the job id
    of the last envelope. *)
Theorem running_job_exhausts_attempts :
  abort_event (signal options) = None ->
  0 <= budget ->
  (forall j : nat, Z.of_nat j < budget -> keeps_running apiCall j) ->
  (forall j : nat, Z.of_nat j < budget -> (starts j - t0 < timeout)%Q) ->
  exists s',
    run apiCall options t0
    = (Rejected (PollingTimeoutError
                   (or_str (known_job_id apiCall (Z.to_nat budget)) "unknown")
                   timeout budget), s')
    /\ calls s' = Z.to_nat budget
    /\ now s' = starts (Z.to_nat budget).
Proof.
  intros Hev Hpos Hrun Htime.
  rewrite run_loop.
  destruct (run_advance (Z.to_nat budget) 0 Hev)
    as (s_n & Hloop & Hc & Ha & Hnow & Hj).
  { intros j Hj. apply Hrun. lia. }
  { intros j Hj. apply Htime. lia. }
  { lia. }
  rewrite Nat.add_0_r in Hloop.
  rewrite Hloop, poll_loop_exit by lia.
  exists s_n. rewrite Hj, Ha, Z2Nat.id by assumption. auto.
Qed.

(** X13. If the time elapsed reaches [timeoutMs] when attempt [n + 1] is
    about to start, with attempts to spare, the run raises a
    [PollingTimeoutError] with [n + 1] attempts after exactly [n] calls. *)
Theorem time_budget_ends_polling (n : nat) :
  abort_event (signal options) = None ->
  (forall j : nat, (j < n)%nat -> keeps_running apiCall j) ->
  (forall j : nat, (j < n)%nat -> (starts j - t0 < timeout)%Q) ->
  (timeout <= starts n - t0)%Q ->
  Z.of_nat n < budget ->
  exists s',
    run apiCall options t0
    = (Rejected (PollingTimeoutError
                   (or_str (known_job_id apiCall n) "unknown")
                   timeout (Z.of_nat n + 1)), s')
    /\ calls s' = n
    /\ now s' = starts n.
Proof.
  intros Hev Hrun Htime Hover Hn.
  rewrite run_loop.
  replace (Z.to_nat budget) with (n + S (Z.to_nat budget - S n))%nat by lia.
  destruct (run_advance n (S (Z.to_nat budget - S n)) Hev Hrun Htime)
    as (s_n & Hloop & Hc & Ha & Hnow & Hj); [lia|].
  rewrite Hloop, poll_loop_unroll.
  destruct (Z.ltb_spec (attempt s_n) budget) as [_|Hge]; [|lia].
  rewrite poll_body_timed_out.
  - exists (set_attempt (attempt s_n + 1) s_n). cbn.
    rewrite Hj, Ha. auto.
  - now apply never_aborted.
  - now rewrite Hnow.
Qed.

End UndisturbedRuns.

(** ** The abortable delay, in time *)

(** X14. The abortable delay never lasts longer than the timer it asks for,
    which runs for no time at all when [ms] is not positive, and never moves
    the clock back.  It resolves only when the whole delay has passed, and
    then a timer of [ms] was started; it rejects only with the cancellation
    error, and then the signal is aborted. *)
Theorem sleepWithAbort_duration (T : Type) (ms : Q) (sg : option AbortSignal)
    (s : Session T) :
  let out := sleepWithAbort ms sg s in
  (now s <= now (snd out))%Q
  /\ (now (snd out) <= now s + timer_delay ms)%Q
  /\ (fst out = Resolved tt ->
      now (snd out) = (now s + timer_delay ms)%Q
      /\ waits (snd out) = (waits s ++ [ms])%list)
  /\ (forall x : PollError,
         fst out = Rejected x ->
         x = AbortError /\ aborted sg (now (snd out)) = true)
  /\ fst out <> Unfinished.
Proof.
  assert (Hpos : (0 <= timer_delay ms)%Q).
  { unfold timer_delay. destruct (Qle_bool ms 0) eqn:E; [apply Qle_refl|].
    destruct (Qlt_le_dec 0 ms) as [H|H]; [now apply Qlt_le_weak|].
    apply Qle_bool_iff in H. congruence. }
  cbv zeta. unfold sleepWithAbort.
  destruct (aborted sg (now s)) eqn:Hab; cbn [fst snd].
  - repeat split; try discriminate.
    + apply Qle_refl.
    + lra.
    + now injection H as <-.
    + assumption.
  - destruct (abort_event sg) as [a|] eqn:Hev.
    + assert (Hlo : (now s < a)%Q).
      { unfold aborted, abort_event in *. destruct sg as [sg|]; [|discriminate].
        rewrite Hev in Hab. destruct (Qlt_le_dec (now s) a) as [H|H]; [assumption|].
        apply Qle_bool_iff in H. congruence. }
      destruct (Qle_bool (now s + timer_delay ms) a) eqn:Hfire; cbn.
      * repeat split; try discriminate. lra. apply Qle_refl.
      * assert (Hhi : (a < now s + timer_delay ms)%Q).
        { destruct (Qlt_le_dec a (now s + timer_delay ms)) as [H|H]; [assumption|].
          apply Qle_bool_iff in H. congruence. }
        repeat split; try discriminate.
        -- now apply Qlt_le_weak.
        -- now apply Qlt_le_weak.
        -- now injection H as <-.
        -- unfold aborted, abort_event in *. destruct sg as [sg|]; [|discriminate].
           rewrite Hev. apply Qle_bool_iff, Qle_refl.
    + cbn. repeat split; try discriminate. lra. apply Qle_refl.
Qed.

(** ** More on the fallback idempotency key *)

Section MoreKeyProperties.

Import IdempotencyKey.

(** Without [crypto.randomUUID] the key is the template with its
    placeholders replaced. *)
Lemma fallback_branch (random : nat -> Q) :
  defaultGenerateIdempotencyKey None random = replace_xy random 0 key_template.
Proof. reflexivity. Qed.

(** For an [x] the callback returns one hexadecimal digit. *)
Lemma key_char_x_hex (q : Q) :
  (0 <= q)%Q -> (q < 1)%Q ->
  exists d : ascii,
    key_char "x" q = String d EmptyString /\ In d uuid_alphabet.
Proof.
  intros H0 H1. destruct (random_nibble q H0 H1) as [E Hr].
  unfold key_char. rewrite E.
  pose proof (nibble_cases _ Hr) as Hin. cbn [In] in Hin.
  repeat (destruct Hin as [<-|Hin];
          [eexists; split; [vm_compute; reflexivity|cbn; tauto]|]).
  contradiction.
Qed.

(** The characters [replace] produces are those the callback returns and
    those of the template that are not placeholders. *)
Lemma replace_xy_alphabet (random : nat -> Q) (P : ascii -> Prop) :
  unit_interval random ->
  (forall c : ascii, In c uuid_alphabet -> P c) ->
  forall (tpl : string) (k : nat),
    (forall (i : nat) (c : ascii),
        String.get i tpl = Some c -> c <> "x"%char -> c <> "y"%char -> P c) ->
    forall (i : nat) (c : ascii),
      String.get i (replace_xy random k tpl) = Some c -> P c.
Proof.
  intros Hrnd Hhex tpl. induction tpl as [|a rest IH]; intros k Htpl.
  - intros i c Hget. destruct i; discriminate.
  - assert (Hrest : forall (i : nat) (c : ascii),
               String.get i rest = Some c -> c <> "x"%char -> c <> "y"%char -> P c).
    { intros i' c' H. apply (Htpl (S i') c'). exact H. }
    assert (Hhead : a <> "x"%char -> a <> "y"%char -> P a).
    { apply (Htpl 0%nat a). reflexivity. }
    cbn [replace_xy].
    destruct (Ascii.eqb_spec a "x") as [->|Hx].
    + destruct (key_char_x_hex (random k)) as (d & Hd & Hin); try apply Hrnd.
      cbn [orb]. rewrite Hd. cbn [append].
      intros [|i] c Hget; cbn [String.get] in Hget.
      * injection Hget as <-. now apply Hhex.
      * now apply (IH (S k) Hrest i).
    + destruct (Ascii.eqb_spec a "y") as [->|Hy].
      * destruct (key_char_y (random k)) as (d & Hd & Hv); try apply Hrnd.
        cbn [orb]. rewrite Hd. cbn [append].
        intros [|i] c Hget; cbn [String.get] in Hget.
        -- injection Hget as <-. apply Hhex.
           destruct Hv as [-> | [-> | [-> | ->]]]; vm_compute; tauto.
        -- now apply (IH (S k) Hrest i).
      * cbn [orb]. intros [|i] c Hget; cbn [String.get] in Hget.
        -- injection Hget as <-. now apply Hhead.
        -- now apply (IH k Hrest i).
Qed.

(** X15. Every character of a key built by the fallback branch is a
    lower-case hexadecimal digit or a hyphen. *)
Theorem fallback_key_alphabet (random : nat -> Q) (i : nat) (c : ascii) :
  unit_interval random ->
  String.get i (defaultGenerateIdempotencyKey None random) = Some c ->
  In c uuid_alphabet.
Proof.
  intros Hrnd Hget. rewrite fallback_branch in Hget.
  refine (replace_xy_alphabet random (fun c => In c uuid_alphabet) Hrnd
            (fun c H => H) key_template 0 _ i c Hget).
  clear. intros i c Hget Hx Hy.
  do 36 (destruct i as [|i];
         [cbn in Hget; injection Hget as <-;
          first [ exfalso; apply Hx; reflexivity
                | exfalso; apply Hy; reflexivity
                | vm_compute; tauto ]|]).
  discriminate.
Qed.

(** [replace] draws once per placeholder. *)
Lemma replace_xy_draws (r1 r2 : nat -> Q) : forall (tpl : string) (k : nat),
  (forall j : nat, (j < List.length (placeholders tpl))%nat ->
     r1 (k + j)%nat = r2 (k + j)%nat) ->
  replace_xy r1 k tpl = replace_xy r2 k tpl.
Proof.
  induction tpl as [|a rest IH]; intros k H; [reflexivity|].
  cbn [replace_xy placeholders] in *.
  destruct (Ascii.eqb a "x" || Ascii.eqb a "y")%bool.
  - rewrite <- (Nat.add_0_r k) at 1 3. rewrite (H 0%nat) by (cbn; lia).
    rewrite Nat.add_0_r. f_equal. apply IH. intros j Hj.
    replace (S k + j)%nat with (k + S j)%nat by lia. apply H. cbn. lia.
  - f_equal. now apply IH.
Qed.

(** The character code of a hexadecimal digit. *)
Lemma hex_digit_code (n : Z) :
  0 <= n <= 15 ->
  Z.of_nat (nat_of_ascii (hex_digit n)) = if n <? 10 then 48 + n else 87 + n.
Proof.
  intros Hn. pose proof (nibble_cases _ Hn) as Hin. cbn [In] in Hin.
  repeat (destruct Hin as [<-|Hin]; [reflexivity|]).
  contradiction.
Qed.

Lemma hex_digit_inj (n1 n2 : Z) :
  0 <= n1 <= 15 -> 0 <= n2 <= 15 -> hex_digit n1 = hex_digit n2 -> n1 = n2.
Proof.
  intros H1 H2 H.
  pose proof (hex_digit_code n1 H1) as C1.
  pose proof (hex_digit_code n2 H2) as C2.
  rewrite H, C2 in C1.
  destruct (n1 <? 10) eqn:E1, (n2 <? 10) eqn:E2; lia.
Qed.

(** The digit the callback returns for an [x] and for the [y]. *)
Lemma key_char_x_digit (q : Q) :
  (0 <= q)%Q -> (q < 1)%Q ->
  key_char "x" q = String (hex_digit (Qfloor (q * 16))) EmptyString.
Proof.
  intros H0 H1. destruct (random_nibble q H0 H1) as [E Hr].
  unfold key_char. rewrite E.
  pose proof (nibble_cases _ Hr) as Hin. cbn [In] in Hin.
  repeat (destruct Hin as [<-|Hin]; [vm_compute; reflexivity|]).
  contradiction.
Qed.

Lemma key_char_y_digit (q : Q) :
  (0 <= q)%Q -> (q < 1)%Q ->
  key_char "y" q = String (hex_digit (8 + Qfloor (q * 16) mod 4)) EmptyString.
Proof.
  intros H0 H1. destruct (random_nibble q H0 H1) as [E Hr].
  unfold key_char. rewrite E.
  pose proof (nibble_cases _ Hr) as Hin. cbn [In] in Hin.
  repeat (destruct Hin as [<-|Hin]; [vm_compute; reflexivity|]).
  contradiction.
Qed.

(** The digit returned for an [x] determines the random nibble. *)
Lemma key_char_x_inj (q1 q2 : Q) :
  (0 <= q1)%Q -> (q1 < 1)%Q -> (0 <= q2)%Q -> (q2 < 1)%Q ->
  key_char "x" q1 = key_char "x" q2 ->
  Qfloor (q1 * 16) = Qfloor (q2 * 16).
Proof.
  intros H0 H1 H0' H1' H.
  rewrite !key_char_x_digit in H by assumption.
  injection H as H.
  apply hex_digit_inj; [apply random_nibble|apply random_nibble|]; assumption.
Qed.

(** The digit returned for the [y] determines the two low bits of the
    random nibble. *)
Lemma key_char_y_inj (q1 q2 : Q) :
  (0 <= q1)%Q -> (q1 < 1)%Q -> (0 <= q2)%Q -> (q2 < 1)%Q ->
  key_char "y" q1 = key_char "y" q2 ->
  Qfloor (q1 * 16) mod 4 = Qfloor (q2 * 16) mod 4.
Proof.
  intros H0 H1 H0' H1' H.
  rewrite !key_char_y_digit in H by assumption.
  pose proof (Z.mod_pos_bound (Qfloor (q1 * 16)) 4 eq_refl) as B1.
  pose proof (Z.mod_pos_bound (Qfloor (q2 * 16)) 4 eq_refl) as B2.
  set (m1 := Qfloor (q1 * 16) mod 4) in *.
  set (m2 := Qfloor (q2 * 16) mod 4) in *.
  injection H as H.
  assert (E : 8 + m1 = 8 + m2) by (apply hex_digit_inj; [lia|lia|exact H]).
  lia.
Qed.

(** Equal outputs of [replace] come from equal callback results. *)
Lemma replace_xy_inj (r1 r2 : nat -> Q) :
  unit_interval r1 -> unit_interval r2 ->
  forall (tpl : string) (k : nat),
    replace_xy r1 k tpl = replace_xy r2 k tpl ->
    forall (j : nat) (c : ascii),
      nth_error (placeholders tpl) j = Some c ->
      key_char c (r1 (k + j)%nat) = key_char c (r2 (k + j)%nat).
Proof.
  intros Hr1 Hr2 tpl. induction tpl as [|a rest IH]; intros k.
  - intros _ j c Hj. destruct j; discriminate.
  - cbn [replace_xy placeholders].
    destruct (Ascii.eqb_spec a "x") as [->|Hx].
    + cbn [orb].
      rewrite (key_char_x_digit (r1 k)), (key_char_x_digit (r2 k))
        by apply Hr1 || apply Hr2.
      cbn [append]. intros H [|j] c Hj.
      * cbn [nth_error] in Hj. injection Hj as <-. rewrite Nat.add_0_r.
        rewrite (key_char_x_digit (r1 k)), (key_char_x_digit (r2 k))
          by apply Hr1 || apply Hr2.
        congruence.
      * cbn [nth_error] in Hj.
        replace (k + S j)%nat with (S k + j)%nat by lia.
        apply IH; [congruence|exact Hj].
    + destruct (Ascii.eqb_spec a "y") as [->|Hy].
      * cbn [orb].
        rewrite (key_char_y_digit (r1 k)), (key_char_y_digit (r2 k))
          by apply Hr1 || apply Hr2.
        cbn [append]. intros H [|j] c Hj.
        -- cbn [nth_error] in Hj. injection Hj as <-. rewrite Nat.add_0_r.
           rewrite (key_char_y_digit (r1 k)), (key_char_y_digit (r2 k))
             by apply Hr1 || apply Hr2.
           congruence.
        -- cbn [nth_error] in Hj.
           replace (k + S j)%nat with (S k + j)%nat by lia.
           apply IH; [congruence|exact Hj].
      * cbn [orb]. intros H j c Hj. apply IH; [congruence|exact Hj].
Qed.

(** X17. The key built by the fallback branch determines what was drawn:
    two random sources that give the same key agree on the nibble drawn for
    each of the 30 [x] (draws 0 to 30 except 15) and on the two low bits of
    the nibble drawn for the [y] (draw 15), 122 bits in all. *)
Theorem fallback_key_determines_draws (r1 r2 : nat -> Q) (k : nat) :
  unit_interval r1 -> unit_interval r2 ->
  defaultGenerateIdempotencyKey None r1 = defaultGenerateIdempotencyKey None r2 ->
  (k < 31)%nat ->
  (k <> 15%nat -> Qfloor (r1 k * 16) = Qfloor (r2 k * 16))
  /\ (k = 15%nat -> Qfloor (r1 k * 16) mod 4 = Qfloor (r2 k * 16) mod 4).
Proof.
  intros Hr1 Hr2 Hkey Hk. rewrite !fallback_branch in Hkey.
  pose proof (replace_xy_inj r1 r2 Hr1 Hr2 key_template 0 Hkey k) as Hinj.
  cbn [Nat.add] in Hinj.
  split.
  - intros Hne. apply key_char_x_inj; try apply Hr1; try apply Hr2.
    apply Hinj. clear - Hk Hne.
    do 31 (destruct k as [|k]; [first [reflexivity|now contradiction Hne]|]).
    lia.
  - intros ->. apply key_char_y_inj; try apply Hr1; try apply Hr2.
    now apply Hinj.
Qed.

(** Equal callback results give equal outputs of [replace]. *)
Lemma replace_xy_chars (r1 r2 : nat -> Q) : forall (tpl : string) (k : nat),
  (forall (j : nat) (c : ascii),
      nth_error (placeholders tpl) j = Some c ->
      key_char c (r1 (k + j)%nat) = key_char c (r2 (k + j)%nat)) ->
  replace_xy r1 k tpl = replace_xy r2 k tpl.
Proof.
  induction tpl as [|a rest IH]; intros k; [reflexivity|].
  cbn [replace_xy placeholders].
  destruct (Ascii.eqb a "x" || Ascii.eqb a "y")%bool; intros H.
  - pose proof (H 0%nat a eq_refl) as H0. rewrite Nat.add_0_r in H0.
    rewrite H0. f_equal. apply IH. intros j c Hj.
    replace (S k + j)%nat with (k + S j)%nat by lia. now apply H.
  - f_equal. now apply IH.
Qed.

Lemma key_char_x_same (q1 q2 : Q) :
  (0 <= q1)%Q -> (q1 < 1)%Q -> (0 <= q2)%Q -> (q2 < 1)%Q ->
  Qfloor (q1 * 16) = Qfloor (q2 * 16) ->
  key_char "x" q1 = key_char "x" q2.
Proof.
  intros H0 H1 H0' H1' E. rewrite !key_char_x_digit by assumption. now rewrite E.
Qed.

Lemma key_char_y_same (q1 q2 : Q) :
  (0 <= q1)%Q -> (q1 < 1)%Q -> (0 <= q2)%Q -> (q2 < 1)%Q ->
  Qfloor (q1 * 16) mod 4 = Qfloor (q2 * 16) mod 4 ->
  key_char "y" q1 = key_char "y" q2.
Proof.
  intros H0 H1 H0' H1' E. rewrite !key_char_y_digit by assumption. now rewrite E.
Qed.

(** The 31 placeholders of the template: 15 [x], the [y], 15 [x]. *)
Lemma placeholders_of_template (j : nat) (c : ascii) :
  nth_error (placeholders key_template) j = Some c ->
  (j < 31)%nat
  /\ (j <> 15%nat -> c = "x"%char) /\ (j = 15%nat -> c = "y"%char).
Proof.
  intros Hj.
  do 31 (destruct j as [|j];
         [cbn in Hj; injection Hj as <-;
          repeat split; try lia; intros E; first [reflexivity|discriminate|lia]|]).
  destruct j; discriminate.
Qed.

(** X16. The key built by the fallback branch is a function of exactly the
    first 31 values of [Math.random], one per placeholder.  Two random
    sources that agree on these 31 values give the same key, whatever they
    return later.  And each of the 31 values is read: for sources with
    values in [0,1), the keys are equal if and only if the nibbles
    [floor(16 * value)] agree for the 30 values drawn for an [x] and their
    two low bits agree for the value drawn for the [y]. *)
Theorem fallback_key_reads_31_draws (r1 r2 : nat -> Q) :
  ((forall k : nat, (k < 31)%nat -> r1 k = r2 k) ->
   defaultGenerateIdempotencyKey None r1 = defaultGenerateIdempotencyKey None r2)
  /\ (unit_interval r1 -> unit_interval r2 ->
      (defaultGenerateIdempotencyKey None r1
       = defaultGenerateIdempotencyKey None r2
       <-> forall k : nat,
             (k < 31)%nat ->
             (k <> 15%nat -> Qfloor (r1 k * 16) = Qfloor (r2 k * 16))
             /\ (k = 15%nat ->
                 Qfloor (r1 k * 16) mod 4 = Qfloor (r2 k * 16) mod 4))).
Proof.
  split.
  - intros H. rewrite !fallback_branch.
    apply replace_xy_draws. intros j Hj. apply H. exact Hj.
  - intros Hr1 Hr2. rewrite !fallback_branch. split.
    + intros Hkey k Hk.
      pose proof (replace_xy_inj r1 r2 Hr1 Hr2 key_template 0 Hkey k) as Hinj.
      cbn [Nat.add] in Hinj. split.
      * intros Hne. apply key_char_x_inj; try apply Hr1; try apply Hr2.
        apply Hinj. clear - Hk Hne.
        do 31 (destruct k as [|k]; [first [reflexivity|now contradiction Hne]|]).
        lia.
      * intros ->. apply key_char_y_inj; try apply Hr1; try apply Hr2.
        now apply Hinj.
    + intros Hsame. apply replace_xy_chars. intros j c Hj. cbn [Nat.add].
      destruct (placeholders_of_template j c Hj) as (Hlt & Hx & Hy).
      destruct (Hsame j Hlt) as [Hfloor Hbits].
      destruct (Nat.eq_dec j 15) as [E|E].
      * rewrite (Hy E). apply key_char_y_same; try apply Hr1; try apply Hr2.
        now apply Hbits.
      * rewrite (Hx E). apply key_char_x_same; try apply Hr1; try apply Hr2.
        now apply Hfloor.
Qed.

End MoreKeyProperties.

(** ** The facade *)

Section FacadeProperties.

Context {G D I Blob InitOverrides : Type}.

(** The proof that a method, once unfolded, hands its API method to the
    poller. *)
Ltac delegation :=
  intros client file options g s; unfold request_key;
  destruct (opt_idempotencyKey options) as [k|] eqn:Hk;
  [destruct (String.eqb_spec k "") as [->|Hne]|];
  eexists; eexists; (split; [reflexivity|]); split;
  [ intros k' Hk' Hne'; congruence
  | intros _; split; reflexivity
  | intros k' Hk' Hne'; injection Hk' as <-; split; reflexivity
  | intros [H|H]; congruence
  | intros k' Hk' Hne'; discriminate
  | intros _; split; reflexivity ].

(** X18. Each method of the facade is the poller run on the API method of
    the same name, called with the archive, the overrides and one
    idempotency key for all polls of the request.  The key is the one given
    with the request, unchanged, and then the generator is not invoked;
    when none is given, or an empty one, it is the next key of the
    generator, invoked once.  The options are the client's, with the signal
    replaced by the signal of the request when there is one. *)
Theorem facade_delegates_to_poller :
  delegates_to (G := G) (D := D) (I := I) (Blob := Blob)
    (InitOverrides := InitOverrides)
    generateDependencyGraph api_generateDependencyGraph
  /\ delegates_to (G := G) (D := D) (I := I) (Blob := Blob)
       (InitOverrides := InitOverrides)
       generateCallGraph api_generateCallGraph
  /\ delegates_to (G := G) (D := D) (I := I) (Blob := Blob)
       (InitOverrides := InitOverrides)
       generateDomainGraph api_generateDomainGraph
  /\ delegates_to (G := G) (D := D) (I := I) (Blob := Blob)
       (InitOverrides := InitOverrides)
       generateParseGraph api_generateParseGraph
  /\ delegates_to (G := G) (D := D) (I := I) (Blob := Blob)
       (InitOverrides := InitOverrides)
       generateSupermodelGraph api_generateSupermodelGraph.
Proof.
  split; [|split; [|split; [|split]]].
  - unfold generateDependencyGraph. delegation.
  - unfold generateCallGraph. delegation.
  - unfold generateDomainGraph. delegation.
  - unfold generateParseGraph. delegation.
  - unfold generateSupermodelGraph. delegation.
Qed.

(** The poller started with an aborted signal and an attempt to make. *)
Lemma pollUntilComplete_cancelled_at_once (T : Type) (apiCall : nat -> Reply T)
    (options : AsyncClientOptions) (s : Session T) :
  aborted (signal options) (now s) = true ->
  0 < with_default (maxPollingAttempts options) 90 ->
  pollUntilComplete apiCall options s
  = (Rejected AbortError, set_jobId "" (set_attempt 0 s)).
Proof.
  intros Hab Hmax. rewrite pollUntilComplete_loop.
  destruct (Z.to_nat (with_default (maxPollingAttempts options) 90))
    as [|fuel] eqn:E; [lia|].
  rewrite poll_loop_unroll, poll_body_cancelled by exact Hab.
  cbn. destruct (Z.ltb_spec 0 (with_default (maxPollingAttempts options) 90));
    [reflexivity|lia].
Qed.

Ltac cancellation :=
  intros client file o sg g s Hsg Hab Hmax;
  destruct (request_key client (Some o) g) as [key g'];
  cbn [fst snd];
  rewrite pollUntilComplete_cancelled_at_once;
  [ repeat split
  | unfold poll_options, opt_signal; rewrite Hsg; exact Hab
  | unfold poll_options, opt_signal; rewrite Hsg; exact Hmax ].

(** X19. When the signal given with a request is aborted and an attempt is
    allowed, each method of the facade rejects with the cancellation error
    at once and the API is not called, whatever the signal of the client. *)
Theorem request_signal_cancels_facade :
  cancelled_by_request_signal (G := G) (D := D) (I := I) (Blob := Blob)
    (InitOverrides := InitOverrides) generateDependencyGraph
  /\ cancelled_by_request_signal (G := G) (D := D) (I := I) (Blob := Blob)
       (InitOverrides := InitOverrides) generateCallGraph
  /\ cancelled_by_request_signal (G := G) (D := D) (I := I) (Blob := Blob)
       (InitOverrides := InitOverrides) generateDomainGraph
  /\ cancelled_by_request_signal (G := G) (D := D) (I := I) (Blob := Blob)
       (InitOverrides := InitOverrides) generateParseGraph
  /\ cancelled_by_request_signal (G := G) (D := D) (I := I) (Blob := Blob)
       (InitOverrides := InitOverrides) generateSupermodelGraph.
Proof.
  split; [|split; [|split; [|split]]].
  - unfold generateDependencyGraph. cancellation.
  - unfold generateCallGraph. cancellation.
  - unfold generateDomainGraph. cancellation.
  - unfold generateParseGraph. cancellation.
  - unfold generateSupermodelGraph. cancellation.
Qed.

End FacadeProperties.

(** ** Further evaluations *)

Section MoreExamples.

Import Scenario MoreScenarios.

(** Proves [p = (c, snd p)] for a pair [p] that computes to one with first
    component [c]. *)
Ltac computes_to :=
  match goal with
  | |- ?p = (_, _) =>
      transitivity (fst p, snd p);
      [apply surjective_pairing|f_equal; vm_compute; reflexivity]
  end.

Lemma scenario_A_result_comes_from_envelope :
  exists (pre : list (AsyncEnvelope string)) (e : AsyncEnvelope string),
    received (snd (run scenarioA optionsA 0)) = (pre ++ [e])%list
    /\ status e = "completed"%string /\ result e = Some "X"%string
    /\ Forall nonterminal pre
    /\ calls (snd (run scenarioA optionsA 0))
       = List.length (received (snd (run scenarioA optionsA 0))).
Proof.
  apply (resolved_only_with_completed_envelope scenarioA optionsA 0 "X"%string).
  computes_to.
Defined.

Lemma scenario_C_error_comes_from_envelope :
  exists (pre : list (AsyncEnvelope string)) (e : AsyncEnvelope string),
    received (snd (run (always failedBad) defaults 0)) = (pre ++ [e])%list
    /\ status e = "failed"%string
    /\ "job-1"%string = jobId e
    /\ "bad archive"%string = or_string (error e) "Unknown error"
    /\ Forall nonterminal pre.
Proof.
  apply (JobFailedError_only_with_failed_envelope (always failedBad) defaults 0).
  computes_to.
Defined.

Lemma abort_error_tells_of_aborted_signal :
  exists (sg : AbortSignal) (a : Q),
    signal (options None (Some 1) (abortsAt 5000)) = Some sg
    /\ abortedAt sg = Some a
    /\ (a <= now (snd (run (always processing)
                         (options None (Some 1%Z) (abortsAt 5000)) 0)))%Q.
Proof.
  apply (AbortError_only_when_signal_aborted (always processing)
           (options None (Some 1) (abortsAt 5000)) 0).
  computes_to.
Defined.

Lemma scenario_B_timeout_cause :
  let s' := snd (run (always processing) (options None (Some 3) None) 0) in
  900000%Q = with_default (timeoutMs (options None (Some 3) None)) 900000%Q
  /\ 3 = attempt s'
  /\ "job-1"%string
     = or_str (last (map jobId (received s')) ""%string) "unknown"
  /\ Forall nonterminal (received s')
  /\ (with_default (maxPollingAttempts (options None (Some 3) None)) 90 <= 3
      \/ (900000 <= now s' - 0)%Q).
Proof.
  apply (PollingTimeoutError_cause (always processing)
           (options None (Some 3) None) 0 "job-1" 900000%Q 3).
  computes_to.
Defined.

Lemma progress_reports_of_scenario_A :
  let s' := snd (run scenarioA optionsWithCallback 0) in
  reports_follow 10000 5 (reports s') (received s')
  /\ map p_nextRetryMs (reports s') = [Some 1000%Q; None].
Proof.
  cbv zeta. split.
  - apply (progress_reports_follow_envelopes scenarioA optionsWithCallback 0).
    reflexivity.
  - vm_compute. reflexivity.
Defined.

Lemma one_attempt_reads_one_reply :
  run (always processing) (options None (Some 1) None) 0
  = run (script [returns 0 processing] (returns 0 completedX))
      (options None (Some 1) None) 0.
Proof.
  apply replies_beyond_budget_are_ignored.
  intros k Hk. cbn in Hk. destruct k as [|k]; [reflexivity|lia].
Defined.

Lemma scenario_A_runs_to_completion :
  exists s',
    run scenarioA optionsA 0 = (Resolved "X"%string, s')
    /\ calls s' = 2%nat
    /\ now s' = (attempt_time scenarioA 10000 0 1 + latency (scenarioA 1%nat))%Q.
Proof.
  apply (completed_within_budget_is_returned scenarioA optionsA 0 1 completedX).
  - reflexivity.
  - intros j Hj. assert (j = 0%nat) as -> by lia.
    exists pending1. split; reflexivity.
  - reflexivity.
  - reflexivity.
  - reflexivity.
  - cbn. lia.
  - intros j Hj. destruct j as [|[|j]]; [reflexivity|reflexivity|lia].
Defined.

Lemma scenario_C_runs_to_failure :
  exists s',
    run (always failedBad) defaults 0
    = (Rejected (JobFailedError "job-1" "bad archive"), s')
    /\ calls s' = 1%nat
    /\ now s' = (attempt_time (always failedBad) 10000 0 0
                 + latency (always failedBad 0%nat))%Q.
Proof.
  apply (failed_within_budget_is_raised (always failedBad) defaults 0 0 failedBad).
  - reflexivity.
  - intros j Hj. lia.
  - reflexivity.
  - reflexivity.
  - cbn. lia.
  - intros j Hj. assert (j = 0%nat) as -> by lia. reflexivity.
Defined.

Lemma scenario_B_runs_out_of_attempts :
  exists s',
    run (always processing) (options None (Some 3) None) 0
    = (Rejected (PollingTimeoutError "job-1" 900000 3), s')
    /\ calls s' = 3%nat
    /\ now s' = attempt_time (always processing) 10000 0 3.
Proof.
  apply (running_job_exhausts_attempts (always processing)
           (options None (Some 3) None) 0).
  - reflexivity.
  - cbn. lia.
  - intros j Hj. exists processing. split; [destruct j; reflexivity|reflexivity].
  - intros j Hj. cbn in Hj.
    destruct j as [|[|[|j]]]; [reflexivity|reflexivity|reflexivity|lia].
Defined.

Lemma slow_calls_run_out_of_time :
  exists s',
    run slow (options (Some 1000%Q) (Some 5) None) 0
    = (Rejected (PollingTimeoutError "job-1" 1000 2), s')
    /\ calls s' = 1%nat
    /\ now s' = attempt_time slow 10000 0 1.
Proof.
  apply (time_budget_ends_polling slow (options (Some 1000%Q) (Some 5) None) 0 1).
  - reflexivity.
  - intros j Hj. assert (j = 0%nat) as -> by lia.
    exists processing. split; reflexivity.
  - intros j Hj. assert (j = 0%nat) as -> by lia. reflexivity.
  - vm_compute. discriminate.
  - cbn. lia.
Defined.

Lemma one_second_delay_undisturbed :
  let out := sleepWithAbort 1000 None midway in
  (now midway <= now (snd out))%Q
  /\ (now (snd out) <= now midway + timer_delay 1000)%Q
  /\ (fst out = Resolved tt ->
      now (snd out) = (now midway + timer_delay 1000)%Q
      /\ waits (snd out) = (waits midway ++ [1000%Q])%list)
  /\ (forall x : PollError,
         fst out = Rejected x ->
         x = AbortError /\ aborted None (now (snd out)) = true)
  /\ fst out <> Unfinished.
Proof.
  exact (sleepWithAbort_duration string 1000 None midway).
Defined.

Lemma first_character_of_a_key :
  In "8"%char uuid_alphabet.
Proof.
  apply (fallback_key_alphabet (fun _ => 1 # 2) 0 "8"%char).
  - intros k. split; [discriminate|reflexivity].
  - vm_compute. reflexivity.
Defined.

(** The draws after the 31st do not matter, the first one does. *)
Lemma key_ignores_later_draws :
  IdempotencyKey.defaultGenerateIdempotencyKey None (fun _ => 1 # 2)
  = IdempotencyKey.defaultGenerateIdempotencyKey None halfThenZero
  /\ IdempotencyKey.defaultGenerateIdempotencyKey None (fun _ => 1 # 2)
     <> IdempotencyKey.defaultGenerateIdempotencyKey None zeroThenHalf.
Proof.
  split.
  - apply (proj1 (fallback_key_reads_31_draws (fun _ => 1 # 2) halfThenZero)).
    intros k Hk. unfold halfThenZero.
    apply Nat.ltb_lt in Hk. now rewrite Hk.
  - intros Hkey.
    destruct (fallback_key_reads_31_draws (fun _ => 1 # 2) zeroThenHalf)
      as [_ Hiff].
    assert (H1 : IdempotencyKey.unit_interval (fun _ => 1 # 2)).
    { intros k. split; [discriminate|reflexivity]. }
    assert (H2 : IdempotencyKey.unit_interval zeroThenHalf).
    { intros [|k]; split; try discriminate; reflexivity. }
    destruct (proj1 (Hiff H1 H2) Hkey 0%nat) as [Hfloor _]; [lia|].
    discriminate Hfloor. lia.
Defined.

Lemma equal_keys_equal_draws :
  (3%nat <> 15%nat ->
   Qfloor ((1 # 2) * 16) = Qfloor (halfThenZero 3 * 16))
  /\ (3%nat = 15%nat ->
      Qfloor ((1 # 2) * 16) mod 4 = Qfloor (halfThenZero 3 * 16) mod 4).
Proof.
  apply (fallback_key_determines_draws (fun _ => 1 # 2) halfThenZero 3).
  - intros k. split; [discriminate|reflexivity].
  - intros k. unfold halfThenZero.
    destruct (k <? 31)%nat; split; try discriminate; reflexivity.
  - vm_compute. reflexivity.
  - lia.
Defined.

(** The echo API returns the key it is called with: a key given with the
    request comes back, an empty one is replaced by the generator's. *)
Lemma facade_passes_the_key_on :
  generateCallGraph FacadeScenario.client 7%nat
    (Some (FacadeScenario.request (Some "my-key"%string) None)) 0
    FacadeScenario.start
  = (pollUntilComplete
       (api_generateCallGraph FacadeScenario.echoApi
          {| req_idempotencyKey := "my-key"; req_file := 7%nat |} None)
       (poll_options FacadeScenario.client
          (Some (FacadeScenario.request (Some "my-key"%string) None)))
       FacadeScenario.start, 0%nat)
  /\ fst (fst (generateCallGraph FacadeScenario.client 7%nat
                 (Some (FacadeScenario.request (Some ""%string) None)) 0
                 FacadeScenario.start))
     = Resolved "key-0"%string.
Proof.
  split; [|vm_compute; reflexivity].
  destruct (facade_delegates_to_poller (G := string) (D := string)
              (I := string) (Blob := nat) (InitOverrides := unit))
    as (_ & Hcall & _).
  destruct (Hcall FacadeScenario.client 7%nat
              (Some (FacadeScenario.request (Some "my-key"%string) None)) 0%nat
              FacadeScenario.start)
    as (key & g' & Heq & Hgiven & _).
  destruct (Hgiven "my-key"%string eq_refl) as [Hkey Hg]; [discriminate|].
  rewrite Heq, Hkey, Hg. reflexivity.
Defined.

Lemma facade_cancelled_by_request :
  fst (fst (generateDomainGraph FacadeScenario.client 7%nat
              (Some (FacadeScenario.request None (Some 0%Q))) 0
              FacadeScenario.start))
  = Rejected AbortError
  /\ calls (snd (fst (generateDomainGraph FacadeScenario.client 7%nat
                        (Some (FacadeScenario.request None (Some 0%Q))) 0
                        FacadeScenario.start)))
     = calls FacadeScenario.start
  /\ now (snd (fst (generateDomainGraph FacadeScenario.client 7%nat
                      (Some (FacadeScenario.request None (Some 0%Q))) 0
                      FacadeScenario.start)))
     = now FacadeScenario.start.
Proof.
  destruct (request_signal_cancels_facade (G := string) (D := string)
              (I := string) (Blob := nat) (InitOverrides := unit))
    as (_ & _ & Hdomain & _).
  apply (Hdomain FacadeScenario.client 7%nat
           (FacadeScenario.request None (Some 0%Q))
           {| abortedAt := Some 0%Q |}).
  - reflexivity.
  - reflexivity.
  - cbn. lia.
Defined.

End MoreExamples.
